(** * ImageUploader: the upload-then-poll component as an event-driven machine

    Shallow embedding of [src/frontend/image-resizer-frontend/src/ImageUploader.tsx]
    (the polling revision of the component: [stopPolling],
    [pollForProcessedImage], [handleFileChange], [handleUpload] and the two
    [useEffect] hooks).

    The component is single-threaded and callback driven.  A [World] holds the
    React state of the component, the [pollIntervalRef] ref, and the part of
    the JavaScript run time the handlers talk to: the active [setInterval]
    registrations, the axios requests that are in flight together with the
    continuation waiting for each of them, and the list of requests issued so
    far.  Every callback of the source is a function [World -> World]; an
    [Event] chooses which callback the event loop runs next. *)

From Stdlib Require Import ZArith String List Lia DecimalString.
From stdpp Require Import base option gmap strings.

Local Open Scope string_scope.
Local Open Scope list_scope.

(** ** JavaScript values *)

(** A [number] as the component sees it: byte counts, attempt numbers and
    percentages are integers; a division by zero yields an infinity or NaN. *)
Inductive JsNumber :=
  | Num (z : Z)
  | PosInfinity
  | NegInfinity
  | NaN.

(** What a [catch] clause can receive: an [AxiosError] (optionally carrying the
    HTTP response: [error.response?.status], [error.response?.data?.message]),
    another [Error], or any other thrown value. *)
Inductive JsError :=
  | AxiosError (status : option Z) (dataMessage : option string) (message : string)
  | PlainError (message : string)
  | Thrown.

(** The [File] picked in the input element; its bytes are opaque. *)
Record File := { name : string; type : string }.

(** Truthiness of a string and of a [string | null]. *)
Definition truthy (s : string) : bool := negb (String.eqb s EmptyString).

Definition truthy_opt (o : option string) : bool :=
  match o with
  | Some s => truthy s
  | None => false
  end.

(** [a || b] where [a] may be undefined. *)
Definition or_else (a : option string) (b : string) : string :=
  match a with
  | Some s => if truthy s then s else b
  | None => b
  end.

(** [a || b] on two strings. *)
Definition or_str (a b : string) : string := if truthy a then a else b.

(** [String.prototype.includes]. *)
Fixpoint includes (s sub : string) : bool :=
  String.prefix sub s ||
  match s with
  | EmptyString => false
  | String _ rest => includes rest sub
  end.

(** An integer interpolated in a template literal. *)
Definition string_of_Z (z : Z) : string := NilZero.string_of_int (Z.to_int z).

(** [Math.round (a / b)]: the nearest integer, halves rounded up.  On integer
    operands the quotient is exact in the rationals and
    [floor (a/b + 1/2) = floor ((2a + b) / 2b)]; [Z.div] is the floor division.
    (The source divides in double precision: the rounded double is the same
    integer for [0 <= a <= 100 * b] and byte counts below [EXACT_BYTES], the
    bound under which the value shown is stated.) *)
Definition round_div (a b : Z) : JsNumber :=
  if (b =? 0)%Z then
    if (0 <? a)%Z then PosInfinity
    else if (a <? 0)%Z then NegInfinity
    else NaN
  else Num ((2 * a + b) / (2 * b))%Z.

(** ** Component state *)

Record ReactState := {
  selectedFile : option File;
  uploadProgress : JsNumber;
  isUploading : bool;
  errorMessage : option string;
  processedImageUrl : option string;
  statusMessage : string
}.

Definition setSelectedFile (v : option File) (s : ReactState) : ReactState :=
  {| selectedFile := v; uploadProgress := uploadProgress s;
     isUploading := isUploading s; errorMessage := errorMessage s;
     processedImageUrl := processedImageUrl s; statusMessage := statusMessage s |}.

Definition setUploadProgress (v : JsNumber) (s : ReactState) : ReactState :=
  {| selectedFile := selectedFile s; uploadProgress := v;
     isUploading := isUploading s; errorMessage := errorMessage s;
     processedImageUrl := processedImageUrl s; statusMessage := statusMessage s |}.

Definition setIsUploading (v : bool) (s : ReactState) : ReactState :=
  {| selectedFile := selectedFile s; uploadProgress := uploadProgress s;
     isUploading := v; errorMessage := errorMessage s;
     processedImageUrl := processedImageUrl s; statusMessage := statusMessage s |}.

Definition setErrorMessage (v : option string) (s : ReactState) : ReactState :=
  {| selectedFile := selectedFile s; uploadProgress := uploadProgress s;
     isUploading := isUploading s; errorMessage := v;
     processedImageUrl := processedImageUrl s; statusMessage := statusMessage s |}.

Definition setProcessedImageUrl (v : option string) (s : ReactState) : ReactState :=
  {| selectedFile := selectedFile s; uploadProgress := uploadProgress s;
     isUploading := isUploading s; errorMessage := errorMessage s;
     processedImageUrl := v; statusMessage := statusMessage s |}.

Definition setStatusMessage (v : string) (s : ReactState) : ReactState :=
  {| selectedFile := selectedFile s; uploadProgress := uploadProgress s;
     isUploading := isUploading s; errorMessage := errorMessage s;
     processedImageUrl := processedImageUrl s; statusMessage := v |}.

(** ** The run time around the component *)

(** A network request as issued through axios.  [ReqPoll] also records the
    arguments of the [pollForProcessedImage] call that issued it. *)
Inductive Request :=
  | ReqGenerateUploadUrl (url filename contentType : string)
  | ReqPut (uploadUrl : string) (file : File) (contentType : string)
  | ReqPoll (url key : string) (attempt : Z)
  | ReqGetUrl (url : string).

(** The continuation that waits for an in-flight request. *)
Inductive Pending :=
  | AwaitPost (file : File)
      (* handleUpload suspended at [await axios.post], closed over selectedFile *)
  | AwaitPut (file : File) (key : string)
      (* handleUpload suspended at [await axios.put]; onUploadProgress is live *)
  | AwaitPoll (key : string) (attempt : Z)
      (* the .then/.catch pair of pollForProcessedImage (key, attempt) *)
  | AwaitGetUrl (key : string).
      (* handleUpload suspended at the [await axios.get] that follows setInterval *)

(** An active [setInterval] registration: the callback is closed over [key]
    and over the mutable local [attempt] of the [handleUpload] run. *)
Record Timer := { timer_key : string; timer_attempt : Z; timer_delay : Z }.

Record World := {
  state : ReactState;
  pollIntervalRef : option nat;
  mounted : bool;
  timers : gmap nat Timer;
  pending : gmap nat Pending;
  log : list Request;
  next_timer : nat;
  next_request : nat
}.

Definition with_state (s : ReactState) (w : World) : World :=
  {| state := s; pollIntervalRef := pollIntervalRef w; mounted := mounted w;
     timers := timers w; pending := pending w; log := log w;
     next_timer := next_timer w; next_request := next_request w |}.

Definition with_ref (r : option nat) (w : World) : World :=
  {| state := state w; pollIntervalRef := r; mounted := mounted w;
     timers := timers w; pending := pending w; log := log w;
     next_timer := next_timer w; next_request := next_request w |}.

Definition with_timers (t : gmap nat Timer) (w : World) : World :=
  {| state := state w; pollIntervalRef := pollIntervalRef w; mounted := mounted w;
     timers := t; pending := pending w; log := log w;
     next_timer := next_timer w; next_request := next_request w |}.

Definition with_pending (p : gmap nat Pending) (w : World) : World :=
  {| state := state w; pollIntervalRef := pollIntervalRef w; mounted := mounted w;
     timers := timers w; pending := p; log := log w;
     next_timer := next_timer w; next_request := next_request w |}.

(** A state setter called from a handler; React drops updates of a component
    that is no longer mounted. *)
Definition setState (f : ReactState -> ReactState) (w : World) : World :=
  if mounted w then with_state (f (state w)) w else w.

(** An axios call: the request leaves, and its continuation waits under a
    fresh request id. *)
Definition issue (req : Request) (k : Pending) (w : World) : World :=
  {| state := state w; pollIntervalRef := pollIntervalRef w; mounted := mounted w;
     timers := timers w; pending := <[next_request w := k]> (pending w);
     log := log w ++ [req];
     next_timer := next_timer w; next_request := S (next_request w) |}.

(** The continuation of a request has run (or is running): it waits no more. *)
Definition settle (rid : nat) (w : World) : World :=
  with_pending (delete rid (pending w)) w.

(** [setInterval]: registers the callback under a fresh handle. *)
Definition setInterval (tm : Timer) (w : World) : nat * World :=
  (next_timer w,
   {| state := state w; pollIntervalRef := pollIntervalRef w; mounted := mounted w;
      timers := <[next_timer w := tm]> (timers w); pending := pending w;
      log := log w;
      next_timer := S (next_timer w); next_request := next_request w |}).

(** [clearInterval]: harmless on a handle that is not active. *)
Definition clearInterval (t : nat) (w : World) : World :=
  with_timers (delete t (timers w)) w.

(** The component right after mounting.  Timer handles are never 0, so a
    handle stored in the ref is truthy. *)
Definition init : World :=
  {| state := {| selectedFile := None; uploadProgress := Num 0;
                 isUploading := false; errorMessage := None;
                 processedImageUrl := None; statusMessage := EmptyString |};
     pollIntervalRef := None; mounted := true;
     timers := ∅; pending := ∅; log := [];
     next_timer := 1; next_request := 0 |}.

(** ** The component *)

(** Polling configuration. *)
Definition POLL_INTERVAL_MS : Z := 3000.
Definition MAX_POLL_ATTEMPTS : Z := 15.

(** What the module takes from its environment: the build-time configuration
    ([process.env...], possibly undefined) and the standard
    [encodeURIComponent]. *)
Class Environment := {
  API_GATEWAY_URL : option string;
  DESTINATION_BUCKET_BASE_URL : option string;
  encodeURIComponent : string -> string
}.

Section ImageUploader.

Context {env : Environment}.

(** [${API_GATEWAY_URL}] inside a template literal. *)
Definition api_gateway_text : string :=
  match API_GATEWAY_URL with
  | Some s => s
  | None => "undefined"
  end.

(** [!API_GATEWAY_URL || API_GATEWAY_URL === "YOUR_API_GATEWAY_INVOKE_URL"] *)
Definition api_gateway_unconfigured : bool :=
  negb (truthy_opt API_GATEWAY_URL) ||
  match API_GATEWAY_URL with
  | Some s => String.eqb s "YOUR_API_GATEWAY_INVOKE_URL"
  | None => false
  end.

(** [!DESTINATION_BUCKET_BASE_URL ||
     DESTINATION_BUCKET_BASE_URL.includes("your-destination-bucket-name")] *)
Definition destination_bucket_unconfigured : bool :=
  negb (truthy_opt DESTINATION_BUCKET_BASE_URL) ||
  match DESTINATION_BUCKET_BASE_URL with
  | Some s => includes s "your-destination-bucket-name"
  | None => false
  end.

Definition stopPolling (w : World) : World :=
  match pollIntervalRef w with
  | Some t => with_ref None (clearInterval t w)
  | None => w
  end.

Definition getUrlEndpoint (key : string) : string :=
  api_gateway_text +:+ "/get-processed-url?key=" +:+ encodeURIComponent key.

(** The synchronous part of [pollForProcessedImage]: status text, then the GET
    leaves. *)
Definition pollForProcessedImage (key : string) (attempt : Z) (w : World) : World :=
  let w1 := setState (setStatusMessage
              ("Processing... (Attempt " +:+ string_of_Z attempt +:+ "/" +:+
               string_of_Z MAX_POLL_ATTEMPTS +:+ ")")) w in
  issue (ReqPoll (getUrlEndpoint key) key attempt) (AwaitPoll key attempt) w1.

(** [.then] of the poll. *)
Definition pollResolved (processedUrl : string) (w : World) : World :=
  let w1 := setState (setProcessedImageUrl (Some processedUrl)) w in
  let w2 := setState (setStatusMessage "Processing complete.") w1 in
  stopPolling w2.

Definition status_is (code : Z) (status : option Z) : bool :=
  match status with
  | Some s => (s =? code)%Z
  | None => false
  end.

(** [.catch] of the poll issued as [attempt]. *)
Definition pollRejected (attempt : Z) (error : JsError) (w : World) : World :=
  if (MAX_POLL_ATTEMPTS <=? attempt)%Z then
    let w1 := setState (setErrorMessage
                (Some "Processing timed out or failed. Please try again.")) w in
    let w2 := setState (setStatusMessage EmptyString) w1 in
    stopPolling w2
  else
    match error with
    | AxiosError status dataMessage message =>
        if negb (status_is 404 status) then
          let w1 := setState (setErrorMessage
                      (Some ("Error retrieving processed image: " +:+
                             or_else dataMessage message))) w in
          let w2 := setState (setStatusMessage EmptyString) w1 in
          stopPolling w2
        else w
    | _ => w
    end.

(** [event.target.files] is null, or a list whose first entry may be missing. *)
Definition handleFileChange (files : option (list File)) (w : World) : World :=
  match files with
  | Some (f :: _) =>
      let w1 := setState (setSelectedFile (Some f)) w in
      let w2 := setState (setErrorMessage None) w1 in
      let w3 := setState (setProcessedImageUrl None) w2 in
      let w4 := setState (setUploadProgress (Num 0)) w3 in
      let w5 := setState (setStatusMessage EmptyString) w4 in
      stopPolling w5
  | _ => w
  end.

(** [handleUpload] up to its first [await]. *)
Definition handleUpload (w : World) : World :=
  match selectedFile (state w) with
  | None => setState (setErrorMessage (Some "Please select a file first.")) w
  | Some file =>
      if api_gateway_unconfigured then
        setState (setErrorMessage
          (Some "Frontend is not configured with API Gateway URL.")) w
      else if destination_bucket_unconfigured then
        setState (setErrorMessage
          (Some "Frontend is not configured with Destination Bucket URL.")) w
      else
        let w1 := setState (setIsUploading true) w in
        let w2 := setState (setErrorMessage None) w1 in
        let w3 := setState (setProcessedImageUrl None) w2 in
        let w4 := setState (setUploadProgress (Num 0)) w3 in
        let w5 := setState (setStatusMessage "Getting upload URL...") w4 in
        let w6 := stopPolling w5 in
        issue (ReqGenerateUploadUrl (api_gateway_text +:+ "/generate-upload-url")
                 (name file) (type file))
              (AwaitPost file) w6
  end.

(** The message computed by the outer [catch] of [handleUpload]. *)
Definition upload_failure_message (error : JsError) : string :=
  match error with
  | AxiosError _ dataMessage message =>
      or_else dataMessage (or_str message "Upload failed.")
  | PlainError message => message
  | Thrown => "Upload failed."
  end.

(** The outer [catch] of [handleUpload]. *)
Definition uploadFailed (error : JsError) (w : World) : World :=
  let w1 := setState (setErrorMessage (Some (upload_failure_message error))) w in
  let w2 := setState (setStatusMessage EmptyString) w1 in
  let w3 := setState (setIsUploading false) w2 in
  stopPolling w3.

(** [handleUpload] resumed with the presigned URL and the key. *)
Definition uploadUrlReceived (file : File) (uploadUrl key : string) (w : World) : World :=
  let w1 := setState (setStatusMessage "Uploading...") w in
  issue (ReqPut uploadUrl file (type file)) (AwaitPut file key) w1.

(** [onUploadProgress]; [total] may be undefined. *)
Definition percentCompleted (loaded : Z) (total : option Z) : JsNumber :=
  round_div (loaded * 100)
            match total with
            | Some t => t
            | None => 1%Z
            end.

Definition onUploadProgress (loaded : Z) (total : option Z) (w : World) : World :=
  setState (setUploadProgress (percentCompleted loaded total)) w.

(** The literal of the GET that follows [setInterval]: the template holds no
    [${...}] placeholder, so neither the gateway URL nor the key is spliced in. *)
Definition follow_up_endpoint : string :=
  "<span class=" +:+ String (Ascii.ascii_of_nat 34) "math-inline" +:+
  String (Ascii.ascii_of_nat 34) ">{API_GATEWAY_URL}/get-processed-url?key=</span>{encodeURIComponent(key)}".

(** [handleUpload] resumed after the PUT went through: polling starts.
    [let attempt = 0], the immediate call with [++attempt], the interval whose
    callback shares [attempt], and then the GET the function awaits next. *)
Definition uploadCompleted (key : string) (w : World) : World :=
  let w1 := setState (setStatusMessage
              "Upload successful! Getting processed image URL...") w in
  let attempt := 0%Z in
  let attempt := (attempt + 1)%Z in
  let w2 := pollForProcessedImage key attempt w1 in
  let '(handle, w3) :=
    setInterval {| timer_key := key; timer_attempt := attempt;
                   timer_delay := POLL_INTERVAL_MS |} w2 in
  let w4 := with_ref (Some handle) w3 in
  issue (ReqGetUrl follow_up_endpoint) (AwaitGetUrl key) w4.

(** The interval callback: [pollForProcessedImage (key, ++attempt)]. *)
Definition intervalFired (t : nat) (w : World) : World :=
  match timers w !! t with
  | Some tm =>
      let attempt := (timer_attempt tm + 1)%Z in
      let w1 := with_timers
                  (<[t := {| timer_key := timer_key tm; timer_attempt := attempt;
                             timer_delay := timer_delay tm |}]> (timers w)) w in
      pollForProcessedImage (timer_key tm) attempt w1
  | None => w
  end.

(** [handleUpload] resumed with the answer to its last GET. *)
Definition getUrlResolved (processedUrl : string) (w : World) : World :=
  let w1 := setState (setProcessedImageUrl (Some processedUrl)) w in
  setState (setStatusMessage "Processing complete.") w1.

Definition get_url_failure_message (error : JsError) : string :=
  match error with
  | AxiosError status dataMessage message =>
      if status_is 404 status
      then "Processed image not found yet. Try refreshing shortly."
      else or_else dataMessage
             (or_str message "Could not retrieve processed image URL.")
  | PlainError message => message
  | Thrown => "Could not retrieve processed image URL."
  end.

Definition getUrlRejected (error : JsError) (w : World) : World :=
  let w1 := setState (setErrorMessage (Some (get_url_failure_message error))) w in
  setState (setStatusMessage EmptyString) w1.

(** The cleanup of the mount effect: the interval is cleared, the ref keeps
    the handle. *)
Definition unmount (w : World) : World :=
  let w1 := match pollIntervalRef w with
            | Some t => clearInterval t w
            | None => w
            end in
  {| state := state w1; pollIntervalRef := pollIntervalRef w1; mounted := false;
     timers := timers w1; pending := pending w1; log := log w1;
     next_timer := next_timer w1; next_request := next_request w1 |}.

(** The effect on [[processedImageUrl, errorMessage]]: it runs after a render
    in which one of the two changed. *)
Definition resultEffect (before after : World) : World :=
  if bool_decide (processedImageUrl (state before) = processedImageUrl (state after)
                  ∧ errorMessage (state before) = errorMessage (state after))
  then after
  else if truthy_opt (processedImageUrl (state after))
          || truthy_opt (errorMessage (state after))
       then setState (setIsUploading false) after
       else after.

(** ** The event loop *)

Inductive Event :=
  | EvFileChange (files : option (list File))
  | EvUploadClick
  | EvPostResponse (rid : nat) (r : (string * string) + JsError)
  | EvUploadProgress (rid : nat) (loaded : Z) (total : option Z)
  | EvPutResponse (rid : nat) (r : unit + JsError)
  | EvPollResponse (rid : nat) (r : string + JsError)
  | EvGetUrlResponse (rid : nat) (r : string + JsError)
  | EvTick (t : nat)
  | EvUnmount.

(** What the rendered elements let through: the file input is
    [disabled={isUploading}], the button [disabled={!selectedFile || isUploading}]. *)
Definition enabled (ev : Event) (w : World) : bool :=
  match ev with
  | EvFileChange _ => mounted w && negb (isUploading (state w))
  | EvUploadClick =>
      mounted w && bool_decide (is_Some (selectedFile (state w)))
      && negb (isUploading (state w))
  | EvUnmount => mounted w
  | _ => true
  end.

(** The callback an event runs.  A response is delivered to the continuation
    that waits for that request and to no other. *)
Definition dispatch (ev : Event) (w : World) : World :=
  match ev with
  | EvFileChange files => handleFileChange files w
  | EvUploadClick => handleUpload w
  | EvPostResponse rid r =>
      match pending w !! rid with
      | Some (AwaitPost file) =>
          match r with
          | inl (uploadUrl, key) => uploadUrlReceived file uploadUrl key (settle rid w)
          | inr error => uploadFailed error (settle rid w)
          end
      | _ => w
      end
  | EvUploadProgress rid loaded total =>
      match pending w !! rid with
      | Some (AwaitPut _ _) => onUploadProgress loaded total w
      | _ => w
      end
  | EvPutResponse rid r =>
      match pending w !! rid with
      | Some (AwaitPut _ key) =>
          match r with
          | inl _ => uploadCompleted key (settle rid w)
          | inr error => uploadFailed error (settle rid w)
          end
      | _ => w
      end
  | EvPollResponse rid r =>
      match pending w !! rid with
      | Some (AwaitPoll _ attempt) =>
          match r with
          | inl processedUrl => pollResolved processedUrl (settle rid w)
          | inr error => pollRejected attempt error (settle rid w)
          end
      | _ => w
      end
  | EvGetUrlResponse rid r =>
      match pending w !! rid with
      | Some (AwaitGetUrl _) =>
          match r with
          | inl processedUrl => getUrlResolved processedUrl (settle rid w)
          | inr error => getUrlRejected error (settle rid w)
          end
      | _ => w
      end
  | EvTick t => intervalFired t w
  | EvUnmount => unmount w
  end.

(** One turn of the event loop: the callback runs and its render is committed
    ([dispatch]), then the effect of that render runs.  The result is the
    state in which the component awaits its next event; the frame committed
    before the effect has run is [dispatch ev w]. *)
Definition step (ev : Event) (w : World) : World :=
  if enabled ev w then resultEffect w (dispatch ev w) else w.

Definition run (evs : list Event) (w : World) : World :=
  foldl (fun w ev => step ev w) w evs.

End ImageUploader.

(** ** Vocabulary of the properties *)

Definition is_click (ev : Event) : bool :=
  match ev with
  | EvUploadClick => true
  | _ => false
  end.

(** The two requests of the upload phase: the upload-URL POST and the PUT. *)
Definition is_upload (p : Pending) : bool :=
  match p with
  | AwaitPost _ | AwaitPut _ _ => true
  | _ => false
  end.

Definition is_poll (p : Pending) : bool :=
  match p with
  | AwaitPoll _ _ => true
  | _ => false
  end.

(** No [handleUpload] run is suspended in its upload phase. *)
Definition upload_idle (w : World) : Prop :=
  ∀ rid p, pending w !! rid = Some p → is_upload p = false.

(** Every active interval is the one whose handle sits in [pollIntervalRef]. *)
Definition timers_owned (w : World) : Prop :=
  ∀ t tm, timers w !! t = Some tm → pollIntervalRef w = Some t.

(** Request ids that were never handed out wait for nothing. *)
Definition fresh_requests (w : World) : Prop :=
  ∀ rid : nat, (next_request w ≤ rid)%nat → pending w !! rid = None.

(** A request of the upload phase in flight is the only one of its phase, and
    no interval is active while it is. *)
Definition upload_exclusive (w : World) : Prop :=
  ∀ r p, pending w !! r = Some p → is_upload p = true →
    timers w = ∅
    ∧ ∀ r' p', pending w !! r' = Some p' → is_upload p' = true → r' = r.

(** One status poll in flight at most. *)
Definition at_most_one_poll (w : World) : Prop :=
  ∀ r p r' p', pending w !! r = Some p → is_poll p = true →
    pending w !! r' = Some p' → is_poll p' = true → r = r'.

#[global] Instance upload_idle_dec (w : World) : Decision (upload_idle w).
Proof.
  change (Decision (map_Forall (fun (_ : nat) p => is_upload p = false)
                               (pending w))).
  apply _.
Defined.

#[global] Instance timers_owned_dec (w : World) : Decision (timers_owned w).
Proof.
  change (Decision (map_Forall (fun (t : nat) (_ : Timer) =>
                                  pollIntervalRef w = Some t) (timers w))).
  apply _.
Defined.

#[global] Instance fresh_requests_dec (w : World) : Decision (fresh_requests w).
Proof.
  refine (cast_if (decide (map_Forall (fun (rid : nat) (_ : Pending) =>
                                         (rid < next_request w)%nat)
                                      (pending w)))).
  - intros rid Hrid. destruct (pending w !! rid) as [p|] eqn:E; [|done].
    apply m in E. lia.
  - intros H. apply n. intros rid p Hp.
    destruct (decide (rid < next_request w)%nat) as [|Hge]; [done|].
    rewrite H in Hp by lia. done.
Defined.

(** Every request of the upload phase that is in flight is request [rid]. *)
Definition sole_upload (rid : nat) (w : World) : Prop :=
  ∀ r p, pending w !! r = Some p → is_upload p = true → r = rid.

#[global] Instance sole_upload_dec (rid : nat) (w : World) :
  Decision (sole_upload rid w).
Proof.
  change (Decision (map_Forall (fun (r : nat) p => is_upload p = true → r = rid)
                               (pending w))).
  apply _.
Defined.

(** What the user is shown as the result: the artifact URL, the error text
    and the status text. *)
Definition outcome (w : World) : option string * option string * string :=
  (processedImageUrl (state w), errorMessage (state w), statusMessage (state w)).

(** The attempt numbers of the poll requests in a log, oldest first. *)
Fixpoint poll_attempts (l : list Request) : list Z :=
  match l with
  | [] => []
  | ReqPoll _ _ attempt :: rest => attempt :: poll_attempts rest
  | _ :: rest => poll_attempts rest
  end.

(** A sequence of file selections, nothing else happening in between. *)
Definition select_files (sel : list (option (list File))) (w : World) : World :=
  foldl (fun w files => handleFileChange files w) w sel.

Section Schedules.

Context {env : Environment}.

(** Polling in which every poll is answered before the interval fires again:
    the answer to the poll issued last (request [rid]) is handled, then the
    interval [t] fires, and so on through the answers. *)
Fixpoint answered_polling (t rid : nat) (answers : list (string + JsError))
    (w : World) : World :=
  match answers with
  | [] => w
  | r :: rest =>
      let w1 := step (EvPollResponse rid r) w in
      answered_polling t (next_request w1) rest (step (EvTick t) w1)
  end.

(** A run in which the upload button is only pressed while no earlier upload
    run is suspended in its upload phase. *)
Fixpoint no_overlap (evs : list Event) (w : World) : Prop :=
  match evs with
  | [] => True
  | ev :: rest =>
      (is_click ev = true → upload_idle w) ∧ no_overlap rest (step ev w)
  end.

End Schedules.

#[global] Instance no_overlap_dec {env : Environment}
    (evs : list Event) (w : World) : Decision (no_overlap evs w).
Proof. revert w. induction evs as [|ev evs IH]; intros w; simpl; apply _. Defined.

(** ** What is rendered *)

(** A number interpolated in a template literal. *)
Definition number_text (n : JsNumber) : string :=
  match n with
  | Num z => string_of_Z z
  | PosInfinity => "Infinity"
  | NegInfinity => "-Infinity"
  | NaN => "NaN"
  end.

(** What the returned JSX shows: the two controls and the three conditional
    blocks ([statusMessage && ...], [errorMessage && ...],
    [processedImageUrl && ...]). *)
Record View := {
  input_disabled : bool;
  button_disabled : bool;
  button_text : string;
  status_paragraph : option string;
  error_paragraph : option string;
  download_href : option string
}.

Definition render (s : ReactState) : View :=
  {| input_disabled := isUploading s;
     button_disabled :=
       negb (bool_decide (is_Some (selectedFile s))) || isUploading s;
     button_text :=
       if isUploading s
       then "Uploading (" +:+ number_text (uploadProgress s) +:+ "%)"
       else "Upload Image";
     status_paragraph :=
       if truthy (statusMessage s)
       then Some ("Status: " +:+ statusMessage s) else None;
     error_paragraph :=
       match errorMessage s with
       | Some m => if truthy m then Some ("Error: " +:+ m) else None
       | None => None
       end;
     download_href :=
       match processedImageUrl s with
       | Some u => if truthy u then Some u else None
       | None => None
       end |}.

(** While the component says it is uploading it shows neither a result nor
    an error. *)
Definition quiet_while_uploading (w : World) : Prop :=
  isUploading (state w) = true →
  truthy_opt (processedImageUrl (state w)) = false
  ∧ truthy_opt (errorMessage (state w)) = false.

#[global] Instance quiet_while_uploading_dec (w : World) :
  Decision (quiet_while_uploading w).
Proof. unfold quiet_while_uploading. apply _. Defined.

(** The request an event answers, if it is a response. *)
Definition answered (ev : Event) : option nat :=
  match ev with
  | EvPostResponse rid _ | EvPutResponse rid _
  | EvPollResponse rid _ | EvGetUrlResponse rid _ => Some rid
  | _ => None
  end.


(** The byte counts up to which the double-precision quotient of the source
    rounds to the same integer as the exact quotient of [round_div]: with
    [loaded <= total < 2^46] the product [loaded * 100] is below [2^53], hence
    exact, and the quotient is at least [1 / (2 * total) > 2^-47] away from
    every half-integer it does not hit, more than half a unit in the last
    place of a double below 128.  Without a total the product itself must be
    exact. *)
Definition EXACT_BYTES : Z := 2 ^ 46.
Definition EXACT_PRODUCT : Z := 2 ^ 53.

(** The failures of a poll that the [.catch] lets pass below the attempt
    bound: a 404, and anything that is not an axios error. *)
Definition passed_over (error : JsError) : bool :=
  match error with
  | AxiosError status _ _ => status_is 404 status
  | _ => true
  end.

(** The interval callback's update of its closure. *)
Definition next_attempt (tm : Timer) : Timer :=
  {| timer_key := timer_key tm; timer_attempt := (timer_attempt tm + 1)%Z;
     timer_delay := timer_delay tm |}.

(** * The first revision of the component

    The file also holds the earlier [ImageUploader], which does not poll: once
    the PUT has gone through it assumes the processed image to be there and
    shows a URL built on the spot.  It has no ref, no interval and no effect
    hook; its image element reports load errors. *)

Module FirstRevision.

Section Component.

Context {env : Environment}.

Definition handleFileChange (files : option (list File)) (w : World) : World :=
  match files with
  | Some (f :: _) =>
      let w1 := setState (setSelectedFile (Some f)) w in
      let w2 := setState (setErrorMessage None) w1 in
      let w3 := setState (setProcessedImageUrl None) w2 in
      let w4 := setState (setUploadProgress (Num 0)) w3 in
      setState (setStatusMessage EmptyString) w4
  | _ => w
  end.

(** [handleUpload] up to its first [await]. *)
Definition handleUpload (w : World) : World :=
  match selectedFile (state w) with
  | None => setState (setErrorMessage (Some "Please select a file first.")) w
  | Some file =>
      if api_gateway_unconfigured then
        setState (setErrorMessage
          (Some "Frontend is not configured with API Gateway URL.")) w
      else if destination_bucket_unconfigured then
        setState (setErrorMessage
          (Some "Frontend is not configured with Destination Bucket URL.")) w
      else
        let w1 := setState (setIsUploading true) w in
        let w2 := setState (setErrorMessage None) w1 in
        let w3 := setState (setProcessedImageUrl None) w2 in
        let w4 := setState (setUploadProgress (Num 0)) w3 in
        let w5 := setState (setStatusMessage "Getting upload URL...") w4 in
        issue (ReqGenerateUploadUrl (api_gateway_text +:+ "/generate-upload-url")
                 (name file) (type file))
              (AwaitPost file) w5
  end.

(** Resumed with the presigned URL and the key. *)
Definition uploadUrlReceived (file : File) (uploadUrl key : string) (w : World) : World :=
  let w1 := setState (setStatusMessage "Uploading...") w in
  issue (ReqPut uploadUrl file (type file)) (AwaitPut file key) w1.

(** The template of the expected URL holds one placeholder only,
    [${Date.now()}]: neither the bucket URL nor the key is spliced in. *)
Definition expected_url (now : Z) : string :=
  "<span class=" +:+ String (Ascii.ascii_of_nat 34) "math-inline" +:+
  String (Ascii.ascii_of_nat 34) ">{DESTINATION_BUCKET_BASE_URL}/</span>{key}?t=" +:+
  string_of_Z now.

(** Resumed after the PUT went through, at time [now]; then [finally]. *)
Definition uploadCompleted (key : string) (now : Z) (w : World) : World :=
  let w1 := setState (setStatusMessage
              "Upload successful! Waiting for processing...") w in
  let processedUrl := expected_url now in
  let w2 := setState (setProcessedImageUrl (Some processedUrl)) w1 in
  let w3 := setState (setStatusMessage "Processing complete (assumed).") w2 in
  setState (setIsUploading false) w3.

(** [catch], then [finally]. *)
Definition uploadFailed (error : JsError) (w : World) : World :=
  let w1 := setState (setErrorMessage (Some (upload_failure_message error))) w in
  let w2 := setState (setStatusMessage EmptyString) w1 in
  setState (setIsUploading false) w2.

(** [onError] of the image element. *)
Definition imageFailed (w : World) : World :=
  let w1 := setState (setErrorMessage
              (Some "Processed image not found or still processing. Try refreshing?")) w in
  setState (setProcessedImageUrl None) w1.

Inductive Event :=
  | EvFileChange (files : option (list File))
  | EvUploadClick
  | EvPostResponse (rid : nat) (r : (string * string) + JsError)
  | EvUploadProgress (rid : nat) (loaded : Z) (total : option Z)
  | EvPutResponse (rid : nat) (r : Z + JsError)
      (* on success: the value of [Date.now()] when the run resumes *)
  | EvImageError
  | EvUnmount.

(** The controls are disabled as in the later revision; the image element
    exists while [processedImageUrl] is truthy. *)
Definition enabled (ev : Event) (w : World) : bool :=
  match ev with
  | EvFileChange _ => mounted w && negb (isUploading (state w))
  | EvUploadClick =>
      mounted w && bool_decide (is_Some (selectedFile (state w)))
      && negb (isUploading (state w))
  | EvImageError => mounted w && truthy_opt (processedImageUrl (state w))
  | EvUnmount => mounted w
  | _ => true
  end.

Definition step (ev : Event) (w : World) : World :=
  if enabled ev w then
    match ev with
    | EvFileChange files => handleFileChange files w
    | EvUploadClick => handleUpload w
    | EvPostResponse rid r =>
        match pending w !! rid with
        | Some (AwaitPost file) =>
            match r with
            | inl (uploadUrl, key) =>
                uploadUrlReceived file uploadUrl key (settle rid w)
            | inr error => uploadFailed error (settle rid w)
            end
        | _ => w
        end
    | EvUploadProgress rid loaded total =>
        match pending w !! rid with
        | Some (AwaitPut _ _) => onUploadProgress loaded total w
        | _ => w
        end
    | EvPutResponse rid r =>
        match pending w !! rid with
        | Some (AwaitPut _ key) =>
            match r with
            | inl now => uploadCompleted key now (settle rid w)
            | inr error => uploadFailed error (settle rid w)
            end
        | _ => w
        end
    | EvImageError => imageFailed w
    | EvUnmount =>
        {| state := state w; pollIntervalRef := pollIntervalRef w;
           mounted := false; timers := timers w; pending := pending w;
           log := log w; next_timer := next_timer w;
           next_request := next_request w |}
    end
  else w.

Definition run (evs : list Event) (w : World) : World :=
  foldl (fun w ev => step ev w) w evs.

End Component.

End FirstRevision.

(** A request of the upload phase. *)
Definition is_upload_request (req : Request) : bool :=
  match req with
  | ReqGenerateUploadUrl _ _ _ | ReqPut _ _ _ => true
  | _ => false
  end.

(** ** A configured instance and sample runs *)

Definition sample_env : Environment :=
  {| API_GATEWAY_URL := Some "https://api.example.com/prod";
     DESTINATION_BUCKET_BASE_URL := Some "https://resized.example.com";
     encodeURIComponent := fun s => s |}.
Definition photo : File := {| name := "photo.jpg"; type := "image/jpeg" |}.
Definition other_photo : File := {| name := "cat.png"; type := "image/png" |}.
Definition not_found : JsError :=
  AxiosError (Some 404%Z) None "Request failed with status code 404".
Definition server_error : JsError :=
  AxiosError (Some 500%Z) None "Request failed with status code 500".

Definition sample_run : list Event -> World -> World := @run sample_env.
Definition sample_step : Event -> World -> World := @step sample_env.

(** Select [photo], press upload, receive the presigned URL: the PUT is in
    flight as request 1. *)
Definition to_transfer : list Event :=
  [EvFileChange (Some [photo]); EvUploadClick;
   EvPostResponse 0 (inl ("https://store/x", "abc123"))].

(** ... and the PUT goes through: poll attempt 1 is request 2, the follow-up
    GET is request 3, the interval has handle 1. *)
Definition to_polling : list Event := to_transfer ++ [EvPutResponse 1 (inl tt)].

Definition selected_world : World :=
  sample_run [EvFileChange (Some [photo])] init.
Definition transfer_world : World := sample_run to_transfer init.
Definition polling_world : World := sample_run to_polling init.


(** Uploads that overlap.  While poll 1 is still in flight the follow-up GET
    fails, which lowers [isUploading]; upload is pressed (request 4); the late
    answer to poll 1 lowers [isUploading] again and upload is pressed once
    more (request 5) with the earlier run still waiting for its POST.  Both
    runs go on to start an interval (handles 2 and 3); the ref keeps the
    second. *)
Definition overlapping_uploads : list Event :=
  [EvGetUrlResponse 3 (inr not_found);
   EvUploadClick;
   EvPollResponse 2 (inl "https://store/abc123?sig=1");
   EvUploadClick;
   EvPostResponse 4 (inl ("https://store/y", "def456"));
   EvPostResponse 5 (inl ("https://store/z", "ghi789"));
   EvPutResponse 6 (inl tt);
   EvPutResponse 7 (inl tt)].

(** A 404 for the poll in flight as request [rid], then the next tick. *)
Definition not_found_then_tick (rid : nat) : list Event :=
  [EvPollResponse rid (inr not_found); EvTick 1].

(** Attempts 1 to 14 are each answered with a 404 before the next tick (their
    request ids are 2, 4, 5, ..., 16); attempt 15 leaves as request 17. *)
Definition fourteen_not_found : list Event :=
  EvGetUrlResponse 3 (inr not_found)
  :: flat_map not_found_then_tick [2; 4; 5; 6; 7; 8; 9; 10; 11; 12; 13; 14; 15; 16]%nat.

(** The answer to attempt 15 takes longer than the interval: the interval
    fires once more before the fifteenth 404 is handled. *)
Definition fifteenth_answer_late : list Event :=
  fourteen_not_found ++ [EvTick 1; EvPollResponse 17 (inr not_found)].

(** The same fifteen answers, the last one in time. *)
Definition fifteenth_answer_in_time : list Event :=
  fourteen_not_found ++ [EvPollResponse 17 (inr not_found); EvTick 1].

(** * Properties *)

(** After [overlapping_uploads] the GET awaited by the last run fails with a
    404, which lowers [isUploading]: the controls are enabled again, the ref
    holds interval 3 (key ghi789), and interval 2 (key def456, whose first
    poll is request 8) is active beside it. *)
Definition stray_world : World :=
  sample_run (overlapping_uploads ++ [EvGetUrlResponse 11 (inr not_found)])
    polling_world.

(** No poll is answered during the first 45 seconds: the interval fires
    fifteen times. *)
Definition fifteen_unanswered_ticks : list Event := repeat (EvTick 1) 15.

(** With attempts 1 to 14 answered, attempt 15 is in flight as request 17. *)
Definition fifteenth_world : World := sample_run fourteen_not_found polling_world.

(** The first revision with the PUT in flight as request 1, and after the PUT
    went through at time 1700000000000. *)
Definition first_transfer_world : World :=
  FirstRevision.run (env := sample_env)
    [FirstRevision.EvFileChange (Some [photo]); FirstRevision.EvUploadClick;
     FirstRevision.EvPostResponse 0 (inl ("https://store/x", "abc123"))] init.

Definition first_result_world : World :=
  FirstRevision.step (env := sample_env)
    (FirstRevision.EvPutResponse 1 (inl 1700000000000%Z)) first_transfer_world.

Section Properties.

Context {env : Environment}.

Create Rewrite HintDb world.

(** ** State setters leave the run time alone *)

Lemma setState_ref f w : pollIntervalRef (setState f w) = pollIntervalRef w.
Proof. unfold setState. by destruct (mounted w). Qed.

Lemma setState_mounted f w : mounted (setState f w) = mounted w.
Proof. unfold setState. by destruct (mounted w) eqn:E. Qed.

Lemma setState_timers f w : timers (setState f w) = timers w.
Proof. unfold setState. by destruct (mounted w). Qed.

Lemma setState_pending f w : pending (setState f w) = pending w.
Proof. unfold setState. by destruct (mounted w). Qed.

Lemma setState_log f w : log (setState f w) = log w.
Proof. unfold setState. by destruct (mounted w). Qed.

Lemma setState_next_timer f w : next_timer (setState f w) = next_timer w.
Proof. unfold setState. by destruct (mounted w). Qed.

Lemma setState_next_request f w : next_request (setState f w) = next_request w.
Proof. unfold setState. by destruct (mounted w). Qed.

Lemma setState_state f w :
  state (setState f w) = if mounted w then f (state w) else state w.
Proof. unfold setState. by destruct (mounted w). Qed.

(** ** [stopPolling] *)

Lemma stopPolling_ref w : pollIntervalRef (stopPolling w) = None.
Proof. unfold stopPolling. by destruct (pollIntervalRef w) eqn:E. Qed.

Lemma stopPolling_state w : state (stopPolling w) = state w.
Proof. unfold stopPolling. by destruct (pollIntervalRef w). Qed.

Lemma stopPolling_mounted w : mounted (stopPolling w) = mounted w.
Proof. unfold stopPolling. by destruct (pollIntervalRef w). Qed.

Lemma stopPolling_pending w : pending (stopPolling w) = pending w.
Proof. unfold stopPolling. by destruct (pollIntervalRef w). Qed.

Lemma stopPolling_log w : log (stopPolling w) = log w.
Proof. unfold stopPolling. by destruct (pollIntervalRef w). Qed.

Lemma stopPolling_next_timer w : next_timer (stopPolling w) = next_timer w.
Proof. unfold stopPolling. by destruct (pollIntervalRef w). Qed.

Lemma stopPolling_next_request w : next_request (stopPolling w) = next_request w.
Proof. unfold stopPolling. by destruct (pollIntervalRef w). Qed.

Lemma stopPolling_timers w :
  timers (stopPolling w) =
  match pollIntervalRef w with
  | Some t => delete t (timers w)
  | None => timers w
  end.
Proof. unfold stopPolling. by destruct (pollIntervalRef w). Qed.

(** Nothing is ever started by [stopPolling]. *)
Lemma stopPolling_timers_sub w t tm :
  timers (stopPolling w) !! t = Some tm → timers w !! t = Some tm.
Proof.
  rewrite stopPolling_timers. destruct (pollIntervalRef w) as [h|]; [|done].
  intros H. by apply lookup_delete_Some in H as [_ H].
Qed.

(** When the ref tracks every active interval, [stopPolling] leaves none. *)
Lemma stopPolling_owned w : timers_owned w → timers (stopPolling w) = ∅.
Proof.
  intros Hown. apply map_empty. intros t.
  destruct (timers (stopPolling w) !! t) as [tm|] eqn:E; [|done].
  pose proof (stopPolling_timers_sub _ _ _ E) as Hin.
  apply Hown in Hin. rewrite stopPolling_timers, Hin in E.
  by rewrite lookup_delete_eq in E.
Qed.

Lemma timers_owned_empty w : timers w = ∅ → timers_owned w.
Proof. intros H t tm. by rewrite H, lookup_empty. Qed.

(** At most one interval is active when the ref tracks them all. *)
Lemma timers_owned_size w : timers_owned w → (size (timers w) ≤ 1)%nat.
Proof.
  intros Hown. destruct (pollIntervalRef w) as [h|] eqn:Href.
  - destruct (timers w !! h) as [tm|] eqn:E.
    + assert (timers w = {[h := tm]}) as ->; [|by rewrite map_size_singleton].
      apply map_eq. intros i. destruct (decide (i = h)) as [->|Hne].
      * by rewrite lookup_singleton_eq.
      * rewrite lookup_singleton_ne by done.
        destruct (timers w !! i) as [tm'|] eqn:E'; [|done].
        apply Hown in E'. congruence.
    + assert (timers w = ∅) as ->; [|rewrite map_size_empty; lia].
      apply map_empty. intros i.
      destruct (timers w !! i) as [tm'|] eqn:E'; [|done].
      pose proof (Hown _ _ E'). congruence.
  - assert (timers w = ∅) as ->; [|rewrite map_size_empty; lia].
    apply map_empty. intros i.
    destruct (timers w !! i) as [tm'|] eqn:E'; [|done].
    pose proof (Hown _ _ E'). congruence.
Qed.

#[local] Hint Rewrite setState_ref setState_mounted setState_timers
  setState_pending setState_log setState_next_timer setState_next_request
  stopPolling_ref stopPolling_state stopPolling_mounted stopPolling_pending
  stopPolling_log stopPolling_next_timer stopPolling_next_request : world.

(** ** The result effect only ever lowers [isUploading] *)

Lemma resultEffect_ref b a : pollIntervalRef (resultEffect b a) = pollIntervalRef a.
Proof. unfold resultEffect. repeat case_match; by autorewrite with world. Qed.

Lemma resultEffect_mounted b a : mounted (resultEffect b a) = mounted a.
Proof. unfold resultEffect. repeat case_match; by autorewrite with world. Qed.

Lemma resultEffect_timers b a : timers (resultEffect b a) = timers a.
Proof. unfold resultEffect. repeat case_match; by autorewrite with world. Qed.

Lemma resultEffect_pending b a : pending (resultEffect b a) = pending a.
Proof. unfold resultEffect. repeat case_match; by autorewrite with world. Qed.

Lemma resultEffect_log b a : log (resultEffect b a) = log a.
Proof. unfold resultEffect. repeat case_match; by autorewrite with world. Qed.

Lemma resultEffect_next_request b a :
  next_request (resultEffect b a) = next_request a.
Proof. unfold resultEffect. repeat case_match; by autorewrite with world. Qed.

Lemma resultEffect_next_timer b a : next_timer (resultEffect b a) = next_timer a.
Proof. unfold resultEffect. repeat case_match; by autorewrite with world. Qed.

Lemma resultEffect_state b a :
  state (resultEffect b a) = state a ∨
  state (resultEffect b a) = setIsUploading false (state a).
Proof.
  unfold resultEffect. repeat case_match; auto.
  rewrite setState_state. case_match; auto.
Qed.

Lemma resultEffect_outcome b a : outcome (resultEffect b a) = outcome a.
Proof.
  unfold outcome. by destruct (resultEffect_state b a) as [-> | ->].
Qed.

Lemma resultEffect_progress b a :
  uploadProgress (state (resultEffect b a)) = uploadProgress (state a).
Proof. by destruct (resultEffect_state b a) as [-> | ->]. Qed.

Lemma resultEffect_selectedFile b a :
  selectedFile (state (resultEffect b a)) = selectedFile (state a).
Proof. by destruct (resultEffect_state b a) as [-> | ->]. Qed.

#[local] Hint Rewrite resultEffect_ref resultEffect_mounted resultEffect_timers
  resultEffect_pending resultEffect_log resultEffect_next_request
  resultEffect_next_timer : world.

(** ** Requests and their continuations *)

Lemma issue_ref req k w : pollIntervalRef (issue req k w) = pollIntervalRef w.
Proof. done. Qed.
Lemma issue_mounted req k w : mounted (issue req k w) = mounted w.
Proof. done. Qed.
Lemma issue_state req k w : state (issue req k w) = state w.
Proof. done. Qed.
Lemma issue_timers req k w : timers (issue req k w) = timers w.
Proof. done. Qed.
Lemma issue_pending req k w :
  pending (issue req k w) = <[next_request w := k]> (pending w).
Proof. done. Qed.
Lemma issue_log req k w : log (issue req k w) = log w ++ [req].
Proof. done. Qed.
Lemma issue_next_request req k w :
  next_request (issue req k w) = S (next_request w).
Proof. done. Qed.
Lemma issue_next_timer req k w : next_timer (issue req k w) = next_timer w.
Proof. done. Qed.

Lemma settle_ref rid w : pollIntervalRef (settle rid w) = pollIntervalRef w.
Proof. done. Qed.
Lemma settle_mounted rid w : mounted (settle rid w) = mounted w.
Proof. done. Qed.
Lemma settle_state rid w : state (settle rid w) = state w.
Proof. done. Qed.
Lemma settle_timers rid w : timers (settle rid w) = timers w.
Proof. done. Qed.
Lemma settle_pending rid w : pending (settle rid w) = delete rid (pending w).
Proof. done. Qed.
Lemma settle_log rid w : log (settle rid w) = log w.
Proof. done. Qed.
Lemma settle_next_request rid w : next_request (settle rid w) = next_request w.
Proof. done. Qed.
Lemma settle_next_timer rid w : next_timer (settle rid w) = next_timer w.
Proof. done. Qed.

#[local] Hint Rewrite issue_ref issue_mounted issue_state issue_timers
  issue_pending issue_log issue_next_request issue_next_timer
  settle_ref settle_mounted settle_state settle_timers settle_pending
  settle_log settle_next_request settle_next_timer stopPolling_timers : world.

Lemma upload_idle_delete rid w w' :
  upload_idle w → pending w' = delete rid (pending w) → upload_idle w'.
Proof.
  intros Hidle Hp r p. rewrite Hp. intros H.
  apply lookup_delete_Some in H as [_ H]. eauto.
Qed.

Lemma upload_idle_same w w' :
  upload_idle w → pending w' = pending w → upload_idle w'.
Proof. intros Hidle Hp r p. rewrite Hp. apply Hidle. Qed.

(** Unfolds the callbacks down to setters, [stopPolling], [issue] and
    [settle], whose projections the [world] rewrite base knows. *)
Ltac callbacks :=
  unfold handleFileChange, handleUpload, pollResolved, pollRejected,
    uploadFailed, uploadUrlReceived, uploadCompleted,
    intervalFired, getUrlResolved, getUrlRejected, onUploadProgress,
    unmount, pollForProcessedImage, setInterval, clearInterval.

(** ** A cancelled poller stays silent

    With no interval active and no upload run suspended, nothing but a new
    press of the upload button makes the component talk to the network. *)
Lemma quiet_step ev w :
  is_click ev = false → timers w = ∅ → upload_idle w →
  timers (step ev w) = ∅ ∧ upload_idle (step ev w) ∧ log (step ev w) = log w.
Proof.
  intros Hev Ht Hidle. unfold step.
  destruct (enabled ev w); [|done].
  assert (timers (dispatch ev w) = ∅ ∧ upload_idle (dispatch ev w)
          ∧ log (dispatch ev w) = log w) as (H1 & H2 & H3).
  2:{ split_and!; autorewrite with world; try done.
      eapply upload_idle_same; [exact H2 | by autorewrite with world]. }
  destruct ev; try discriminate; simpl.
  - destruct files as [[|f l]|]; try done. callbacks.
    split_and!; autorewrite with world; rewrite ?Ht; try done.
    + case_match; by rewrite ?delete_empty.
    + eapply upload_idle_same; [done | by autorewrite with world].
  - destruct (pending w !! rid) as [[]|] eqn:E; try done.
    apply Hidle in E. discriminate.
  - destruct (pending w !! rid) as [[]|] eqn:E; try done.
    apply Hidle in E. discriminate.
  - destruct (pending w !! rid) as [[]|] eqn:E; try done.
    apply Hidle in E. discriminate.
  - destruct (pending w !! rid) as [[]|] eqn:E; try done.
    destruct r as [url|err]; callbacks.
    + split_and!; autorewrite with world; rewrite ?Ht; try done.
      * case_match; by rewrite ?delete_empty.
      * eapply upload_idle_delete; [done | by autorewrite with world].
    + assert (upload_idle (settle rid w)) as Hs
        by (eapply upload_idle_delete; [done | by autorewrite with world]).
      repeat case_match; split_and!; autorewrite with world;
        rewrite ?Ht; try done; try (case_match; by rewrite ?delete_empty);
        (eapply upload_idle_same; [exact Hs | by autorewrite with world]).
  - destruct (pending w !! rid) as [[]|] eqn:E; try done.
    destruct r as [url|err]; callbacks;
      split_and!; autorewrite with world; rewrite ?Ht; try done;
      (eapply upload_idle_delete; [done | by autorewrite with world]).
  - callbacks. by rewrite Ht, lookup_empty.
  - callbacks. split_and!.
    + destruct (pollIntervalRef w); simpl; rewrite ?Ht; by rewrite ?delete_empty.
    + eapply upload_idle_same; [done|]. by destruct (pollIntervalRef w).
    + by destruct (pollIntervalRef w).
Qed.

Lemma quiet_run evs w :
  forallb (fun ev => negb (is_click ev)) evs = true →
  timers w = ∅ → upload_idle w →
  timers (run evs w) = ∅ ∧ upload_idle (run evs w) ∧ log (run evs w) = log w.
Proof.
  revert w. induction evs as [|ev evs IH]; intros w Hevs Ht Hidle; [done|].
  simpl in Hevs. apply andb_prop in Hevs as [Hev Hevs].
  apply negb_true_iff in Hev.
  destruct (quiet_step ev w Hev Ht Hidle) as (H1 & H2 & H3).
  destruct (IH (step ev w) Hevs H1 H2) as (H4 & H5 & H6).
  unfold run in *. simpl. by rewrite H6, H3.
Qed.

(** Rewrites the React state reached through setters of a mounted component. *)
Ltac state_of Hm :=
  repeat (rewrite ?setState_state, ?stopPolling_state;
          autorewrite with world; rewrite ?Hm); simpl; rewrite ?Hm.

Lemma handleFileChange_mounted files w :
  mounted (handleFileChange files w) = mounted w.
Proof. destruct files as [[|f l]|]; callbacks; by autorewrite with world. Qed.

Lemma handleFileChange_log files w : log (handleFileChange files w) = log w.
Proof. destruct files as [[|f l]|]; callbacks; by autorewrite with world. Qed.

Lemma handleFileChange_owned files w :
  timers_owned w → timers_owned (handleFileChange files w).
Proof.
  intros Hown. destruct files as [[|f l]|]; try done. callbacks.
  apply timers_owned_empty.
  rewrite <- (stopPolling_owned w Hown).
  by autorewrite with world.
Qed.

Lemma select_files_owned sel w :
  timers_owned w →
  timers_owned (select_files sel w) ∧ log (select_files sel w) = log w.
Proof.
  revert w. induction sel as [|files sel IH]; intros w Hown; [done|].
  destruct (IH (handleFileChange files w)) as [H1 H2].
  - by apply handleFileChange_owned.
  - unfold select_files in *. simpl. by rewrite H2, handleFileChange_log.
Qed.



Lemma resultEffect_errorMessage b a :
  errorMessage (state (resultEffect b a)) = errorMessage (state a).
Proof. by destruct (resultEffect_state b a) as [-> | ->]. Qed.

Lemma resultEffect_processedImageUrl b a :
  processedImageUrl (state (resultEffect b a)) = processedImageUrl (state a).
Proof. by destruct (resultEffect_state b a) as [-> | ->]. Qed.

Lemma resultEffect_statusMessage b a :
  statusMessage (state (resultEffect b a)) = statusMessage (state a).
Proof. by destruct (resultEffect_state b a) as [-> | ->]. Qed.



(** [Math.round] of a quotient with a positive divisor is the one integer
    within a half of it, the upper one on a tie. *)
Lemma round_div_nearest (a b : Z) :
  (0 < b)%Z →
  ∃ p, round_div a b = Num p ∧ (2 * p * b ≤ 2 * a + b < 2 * (p + 1) * b)%Z.
Proof.
  intros Hb. unfold round_div.
  destruct (b =? 0)%Z eqn:E; [apply Z.eqb_eq in E; lia|].
  eexists. split; [reflexivity|].
  pose proof (Z.mul_div_le (2 * a + b) (2 * b) ltac:(lia)).
  pose proof (Z.mul_succ_div_gt (2 * a + b) (2 * b) ltac:(lia)).
  lia.
Qed.

(** ** The upload phase is sequential *)

Lemma stopPolling_timers_empty w : timers w = ∅ → timers (stopPolling w) = ∅.
Proof.
  intros Ht. rewrite stopPolling_timers, Ht.
  case_match; by rewrite ?delete_empty.
Qed.

Lemma exclusive_idle w : upload_idle w → upload_exclusive w.
Proof. intros Hidle r p Hp Hup. apply Hidle in Hp. congruence. Qed.

Lemma exclusive_same w w' :
  upload_exclusive w → pending w' = pending w →
  (timers w = ∅ → timers w' = ∅) → upload_exclusive w'.
Proof.
  intros Hex Hp Ht r p. rewrite Hp. intros Hr Hup.
  destruct (Hex r p Hr Hup) as [H1 H2]. auto.
Qed.

Lemma exclusive_delete rid w w' :
  upload_exclusive w → pending w' = delete rid (pending w) →
  (timers w = ∅ → timers w' = ∅) → upload_exclusive w'.
Proof.
  intros Hex Hp Ht r p. rewrite Hp. intros Hr Hup.
  apply lookup_delete_Some in Hr as [Hne Hr].
  destruct (Hex r p Hr Hup) as [H1 H2]. split; [auto|].
  intros r' p' Hr' Hup'. apply lookup_delete_Some in Hr' as [_ Hr']. eauto.
Qed.

(** The continuation at [rid] hands over to the one request [q]. *)
Lemma exclusive_handoff rid p0 n q w w' :
  upload_exclusive w → pending w !! rid = Some p0 → is_upload p0 = true →
  pending w' = <[n := q]> (delete rid (pending w)) →
  timers w' = timers w → upload_exclusive w'.
Proof.
  intros Hex Hrid Hup0 Hp Ht.
  destruct (Hex rid p0 Hrid Hup0) as [Hnone Honly].
  assert (∀ r p, pending w' !! r = Some p → is_upload p = true → r = n) as Hn.
  { intros r p. rewrite Hp. intros Hr Hup.
    apply lookup_insert_Some in Hr as [[<- _] | [_ Hr]]; [done|].
    apply lookup_delete_Some in Hr as [Hne Hr].
    by specialize (Honly r p Hr Hup). }
  intros r p Hr Hup. split; [by rewrite Ht|].
  intros r' p' Hr' Hup'.
  by rewrite (Hn r p Hr Hup), (Hn r' p' Hr' Hup').
Qed.

(** The continuation at [rid] was the whole upload phase; what it leaves or
    starts is not of that phase. *)
Lemma idle_after_upload rid p0 w w' :
  upload_exclusive w → pending w !! rid = Some p0 → is_upload p0 = true →
  (∀ r p, pending w' !! r = Some p → is_upload p = true →
          rid ≠ r ∧ pending w !! r = Some p) →
  upload_idle w'.
Proof.
  intros Hex Hrid Hup0 Hsub r p Hr.
  destruct (is_upload p) eqn:Hup; [|done].
  destruct (Hsub r p Hr Hup) as [Hne Hr'].
  destruct (Hex rid p0 Hrid Hup0) as [_ Honly].
  by specialize (Honly r p Hr' Hup).
Qed.

Lemma upload_exclusive_step ev w :
  is_click ev = false → upload_exclusive w → upload_exclusive (step ev w).
Proof.
  intros Hev Hex. unfold step.
  destruct (enabled ev w); [|done].
  eapply exclusive_same with (w := dispatch ev w);
    [| by autorewrite with world | by autorewrite with world].
  destruct ev; try discriminate; simpl.
  - destruct files as [[|f l]|]; try done. callbacks.
    eapply exclusive_same; [exact Hex | by autorewrite with world |].
    intros Ht. rewrite <- (stopPolling_timers_empty w Ht).
    by autorewrite with world.
  - destruct (pending w !! rid) as [[]|] eqn:E; try done.
    destruct r as [[uploadUrl key]|err]; callbacks.
    + eapply exclusive_handoff; [exact Hex | exact E | reflexivity | |];
        autorewrite with world; reflexivity.
    + apply exclusive_idle. eapply idle_after_upload; [exact Hex | exact E | reflexivity |].
      intros r p. autorewrite with world. intros Hr _.
      by apply lookup_delete_Some in Hr.
  - destruct (pending w !! rid) as [[]|] eqn:E; try done. callbacks.
    eapply exclusive_same; [exact Hex | by autorewrite with world |].
    by autorewrite with world.
  - destruct (pending w !! rid) as [[]|] eqn:E; try done.
    destruct r as [[]|err]; callbacks.
    + apply exclusive_idle. eapply idle_after_upload; [exact Hex | exact E | reflexivity |].
      intros r p. simpl. autorewrite with world. simpl. intros Hr Hup.
      apply lookup_insert_Some in Hr as [[_ <-] | [_ Hr]]; [done|].
      apply lookup_insert_Some in Hr as [[_ <-] | [_ Hr]]; [done|].
      by apply lookup_delete_Some in Hr.
    + apply exclusive_idle. eapply idle_after_upload; [exact Hex | exact E | reflexivity |].
      intros r p. autorewrite with world. intros Hr _.
      by apply lookup_delete_Some in Hr.
  - destruct (pending w !! rid) as [[]|] eqn:E; try done.
    destruct r as [url|err]; callbacks; repeat case_match;
      (eapply exclusive_delete; [exact Hex | by autorewrite with world |]);
      intros Ht; try (by autorewrite with world);
      rewrite <- (stopPolling_timers_empty w Ht); by autorewrite with world.
  - destruct (pending w !! rid) as [[]|] eqn:E; try done.
    destruct r as [url|err]; callbacks;
      (eapply exclusive_delete; [exact Hex | by autorewrite with world |]);
      intros Ht; by autorewrite with world.
  - callbacks. destruct (timers w !! t) as [tm|] eqn:E; [|done].
    intros r p. autorewrite with world. simpl. intros Hr Hup.
    apply lookup_insert_Some in Hr as [[_ <-] | [_ Hr]]; [done|].
    destruct (Hex r p Hr Hup) as [Ht _]. by rewrite Ht, lookup_empty in E.
  - callbacks. eapply exclusive_same; [exact Hex | |].
    + by destruct (pollIntervalRef w).
    + intros Ht. destruct (pollIntervalRef w); simpl; rewrite ?Ht;
        by rewrite ?delete_empty.
Qed.

Lemma upload_exclusive_run evs w :
  forallb (fun ev => negb (is_click ev)) evs = true →
  upload_exclusive w → upload_exclusive (run evs w).
Proof.
  revert w. induction evs as [|ev evs IH]; intros w Hevs Hex; [done|].
  simpl in Hevs. apply andb_prop in Hevs as [Hev Hevs].
  apply negb_true_iff in Hev. unfold run in *. simpl.
  apply IH; [done|]. by apply upload_exclusive_step.
Qed.

Lemma upload_exclusive_click w :
  upload_idle w → timers_owned w → upload_exclusive (step EvUploadClick w).
Proof.
  intros Hidle Hown. unfold step.
  destruct (enabled EvUploadClick w); [|by apply exclusive_idle].
  eapply exclusive_same with (w := handleUpload w);
    [| by autorewrite with world | by autorewrite with world].
  unfold handleUpload.
  destruct (selectedFile (state w)) as [f|].
  2:{ apply exclusive_idle. eapply upload_idle_same; [done|].
      by autorewrite with world. }
  destruct (api_gateway_unconfigured).
  { apply exclusive_idle. eapply upload_idle_same; [done|].
    by autorewrite with world. }
  destruct (destination_bucket_unconfigured).
  { apply exclusive_idle. eapply upload_idle_same; [done|].
    by autorewrite with world. }
  assert (∀ r p, pending w !! r = Some p → is_upload p = true → False) as Hno.
  { intros r p Hr Hup. apply Hidle in Hr. congruence. }
  intros r p. autorewrite with world. intros Hr Hup. split.
  - rewrite <- (stopPolling_owned w Hown). by autorewrite with world.
  - assert (∀ r p, <[next_request w := AwaitPost f]> (pending w) !! r = Some p →
                   is_upload p = true → r = next_request w) as Hn.
    { intros r0 p0 Hr0 Hup0.
      apply lookup_insert_Some in Hr0 as [[<- _] | [_ Hr0]]; [done|].
      by destruct (Hno r0 p0 Hr0 Hup0). }
    intros r' p' Hr' Hup'. by rewrite (Hn r p Hr Hup), (Hn r' p' Hr' Hup').
Qed.

(** ** The interval and its attempts *)

Lemma poll_attempts_app l l' :
  poll_attempts (l ++ l') = poll_attempts l ++ poll_attempts l'.
Proof.
  induction l as [|[] l IH]; simpl; try done. by rewrite IH.
Qed.

Lemma step_unchanged ev w : dispatch ev w = w → step ev w = w.
Proof.
  intros H. unfold step. rewrite H. destruct (enabled ev w); [|done].
  unfold resultEffect. by rewrite bool_decide_eq_true_2.
Qed.

(** What one firing of an active interval does. *)
Lemma tick_active t tm w :
  timers w !! t = Some tm →
  log (step (EvTick t) w) =
    log w ++ [ReqPoll (getUrlEndpoint (timer_key tm)) (timer_key tm)
                (timer_attempt tm + 1)]
  ∧ timers (step (EvTick t) w) =
      <[t := {| timer_key := timer_key tm;
                timer_attempt := (timer_attempt tm + 1)%Z;
                timer_delay := timer_delay tm |}]> (timers w)
  ∧ pending (step (EvTick t) w) =
      <[next_request w := AwaitPoll (timer_key tm) (timer_attempt tm + 1)]>
        (pending w)
  ∧ next_request (step (EvTick t) w) = S (next_request w)
  ∧ pollIntervalRef (step (EvTick t) w) = pollIntervalRef w.
Proof.
  intros Ht. unfold step. simpl. autorewrite with world.
  callbacks. rewrite Ht. by autorewrite with world.
Qed.

(** Handling the answer to the poll issued as attempt [n]: either the
    interval is gone afterwards, or the answer was a failure below the bound
    and the interval is untouched. *)
Lemma poll_answer t key n rid r w :
  pollIntervalRef w = Some t →
  pending w !! rid = Some (AwaitPoll key n) →
  let w1 := step (EvPollResponse rid r) w in
  log w1 = log w ∧ next_request w1 = next_request w
  ∧ pending w1 = delete rid (pending w)
  ∧ (timers w1 !! t = None
     ∨ ((n < MAX_POLL_ATTEMPTS)%Z ∧ timers w1 = timers w
        ∧ pollIntervalRef w1 = pollIntervalRef w)).
Proof.
  intros Href Hp w1. subst w1. unfold step. simpl. rewrite Hp.
  autorewrite with world.
  destruct r as [url|err]; callbacks.
  - autorewrite with world. rewrite Href. split_and!; try done.
    left. apply lookup_delete_eq.
  - destruct (MAX_POLL_ATTEMPTS <=? n)%Z eqn:E.
    + autorewrite with world. rewrite Href. split_and!; try done.
      left. apply lookup_delete_eq.
    + apply Z.leb_gt in E. destruct err as [status dm msg| |];
        try (autorewrite with world; split_and!; try done; by right).
      destruct (negb (status_is 404 status)).
      * autorewrite with world. rewrite Href. split_and!; try done.
        left. apply lookup_delete_eq.
      * autorewrite with world. split_and!; try done. by right.
Qed.

Lemma answered_polling_idle t answers w :
  timers w !! t = None → fresh_requests w →
  answered_polling t (next_request w) answers w = w.
Proof.
  intros Ht Hfresh. induction answers as [|r rest IH]; [done|]. simpl.
  assert (step (EvPollResponse (next_request w) r) w = w) as ->.
  { apply step_unchanged. simpl. by rewrite (Hfresh _ (le_n _)). }
  assert (step (EvTick t) w = w) as ->; [|done].
  apply step_unchanged. simpl. callbacks. by rewrite Ht.
Qed.

(** Answered before each tick, the interval never asks beyond the bound. *)
Lemma answered_polling_bound t key d answers :
  ∀ w rid n,
    pollIntervalRef w = Some t →
    timers w !! t = Some {| timer_key := key; timer_attempt := n; timer_delay := d |} →
    pending w !! rid = Some (AwaitPoll key n) →
    fresh_requests w → (n ≤ MAX_POLL_ATTEMPTS)%Z →
    ∃ new,
      poll_attempts (log (answered_polling t rid answers w)) =
        poll_attempts (log w) ++ new
      ∧ Forall (fun a => (a ≤ MAX_POLL_ATTEMPTS)%Z) new.
Proof.
  induction answers as [|r rest IH]; intros w rid n Href Ht Hp Hfresh Hn.
  { exists []. by rewrite app_nil_r. }
  simpl.
  destruct (poll_answer t key n rid r w Href Hp) as (Hl & Hnr & Hpd & Hcase).
  set (w1 := step (EvPollResponse rid r) w) in *.
  assert (fresh_requests w1) as Hfresh1.
  { intros i Hi. rewrite Hpd. apply lookup_delete_None. right.
    apply Hfresh. by rewrite <- Hnr. }
  destruct Hcase as [Hgone | (Hlt & Hts & Href1)].
  - exists []. rewrite app_nil_r.
    assert (step (EvTick t) w1 = w1) as ->.
    { apply step_unchanged. simpl. callbacks. by rewrite Hgone. }
    by rewrite answered_polling_idle, Hl.
  - assert (timers w1 !! t = Some {| timer_key := key; timer_attempt := n;
                                     timer_delay := d |}) as Ht1
      by (by rewrite Hts).
    destruct (tick_active t _ w1 Ht1) as (Hl2 & Ht2 & Hp2 & Hn2 & Href2).
    simpl in *. set (w2 := step (EvTick t) w1) in *.
    destruct (IH w2 (next_request w1) (n + 1)%Z) as (new & Hnew & Hall).
    + by rewrite Href2, Href1.
    + by rewrite Ht2, lookup_insert_eq.
    + by rewrite Hp2, lookup_insert_eq.
    + intros i Hi. rewrite Hp2. rewrite Hn2 in Hi.
      rewrite lookup_insert_ne by lia. apply Hfresh1. lia.
    + lia.
    + exists ((n + 1)%Z :: new). split.
      * rewrite Hnew, Hl2, poll_attempts_app, Hl. simpl.
        by rewrite <- app_assoc.
      * constructor; [lia | done].
Qed.

(** ** After the component is gone

    React drops the updates of a component that is no longer mounted, so
    whatever arrives after [unmount] leaves the state as it was. *)

Lemma resultEffect_unmounted b a : mounted a = false → resultEffect b a = a.
Proof.
  intros Hm. unfold resultEffect, setState. rewrite Hm. by repeat case_match.
Qed.

Lemma unmounted_step ev w :
  mounted w = false →
  state (step ev w) = state w ∧ mounted (step ev w) = false.
Proof.
  intros Hm. unfold step. destruct (enabled ev w) eqn:He; [|done].
  assert (state (dispatch ev w) = state w ∧ mounted (dispatch ev w) = false)
    as [Hs Hm'].
  2:{ by rewrite resultEffect_unmounted. }
  destruct ev; simpl in *; rewrite ?Hm in He; try discriminate.
  - destruct (pending w !! rid) as [[]|]; try (by split).
    destruct r as [[uploadUrl key]|err]; callbacks;
      (split; [by state_of Hm | by autorewrite with world]).
  - destruct (pending w !! rid) as [[]|]; try (by split). callbacks.
    split; [by state_of Hm | by autorewrite with world].
  - destruct (pending w !! rid) as [[]|]; try (by split).
    destruct r as [[]|err]; callbacks; simpl;
      (split; [by state_of Hm | by autorewrite with world]).
  - destruct (pending w !! rid) as [[]|]; try (by split).
    destruct r as [url|err]; callbacks; repeat case_match;
      (split; [by state_of Hm | by autorewrite with world]).
  - destruct (pending w !! rid) as [[]|]; try (by split).
    destruct r as [url|err]; callbacks;
      (split; [by state_of Hm | by autorewrite with world]).
  - callbacks. destruct (timers w !! t); [|by split].
    split; [by state_of Hm | by autorewrite with world].
Qed.



(** ** The component invariant

    As long as uploads do not overlap, the interval in [pollIntervalRef] is
    the only active one and the upload phase is exclusive; request ids are
    fresh in every run. *)

Lemma owned_same w w' :
  timers_owned w → timers w' = timers w →
  pollIntervalRef w' = pollIntervalRef w → timers_owned w'.
Proof. intros Hown Ht Hr t tm. rewrite Ht, Hr. apply Hown. Qed.

Lemma single_cycle_step ev w :
  timers_owned w → upload_exclusive w →
  (is_click ev = true → upload_idle w) →
  timers_owned (step ev w) ∧ upload_exclusive (step ev w).
Proof.
  intros Hown Hex Hclick. split.
  2:{ destruct (is_click ev) eqn:Hev.
      - destruct ev; try discriminate. apply upload_exclusive_click; auto.
      - by apply upload_exclusive_step. }
  unfold step. destruct (enabled ev w); [|done].
  eapply owned_same with (w := dispatch ev w); [| by autorewrite with world ..].
  assert (∀ v, timers v = timers (stopPolling w) → timers_owned v) as Hstop.
  { intros v Hv. apply timers_owned_empty.
    by rewrite Hv, (stopPolling_owned w Hown). }
  destruct ev; simpl.
  - by apply handleFileChange_owned.
  - unfold handleUpload. repeat case_match;
      try (eapply owned_same; [exact Hown | by autorewrite with world ..]).
    apply Hstop. by autorewrite with world.
  - destruct (pending w !! rid) as [[]|] eqn:E; try done.
    destruct r as [[uploadUrl key]|err]; callbacks.
    + eapply owned_same; [exact Hown | by autorewrite with world ..].
    + apply Hstop. by autorewrite with world.
  - destruct (pending w !! rid) as [[]|] eqn:E; try done. callbacks.
    eapply owned_same; [exact Hown | by autorewrite with world ..].
  - destruct (pending w !! rid) as [[]|] eqn:E; try done.
    destruct (Hex _ _ E eq_refl) as [Hnone _].
    destruct r as [[]|err]; callbacks.
    + intros t tm. simpl. autorewrite with world. simpl.
      autorewrite with world. rewrite Hnone. intros Ht.
      apply lookup_insert_Some in Ht as [[<- _] | [_ Ht]]; [done|].
      by rewrite lookup_empty in Ht.
    + apply Hstop. by autorewrite with world.
  - destruct (pending w !! rid) as [[]|] eqn:E; try done.
    destruct r as [url|err]; callbacks; repeat case_match;
      try (apply Hstop; by autorewrite with world);
      (eapply owned_same; [exact Hown | by autorewrite with world ..]).
  - destruct (pending w !! rid) as [[]|] eqn:E; try done.
    destruct r as [url|err]; callbacks;
      (eapply owned_same; [exact Hown | by autorewrite with world ..]).
  - callbacks. destruct (timers w !! t) as [tm|] eqn:E; [|done].
    intros t0 tm0. autorewrite with world. simpl. intros Ht.
    apply lookup_insert_Some in Ht as [[<- _] | [_ Ht]]; eauto.
  - callbacks. intros t tm. simpl.
    destruct (pollIntervalRef w) as [h|] eqn:Href; simpl; rewrite ?Href.
    + intros Ht. apply lookup_delete_Some in Ht as [_ Ht].
      rewrite <- Href. eauto.
    + rewrite <- Href. apply Hown.
Qed.

Lemma single_cycle_run evs :
  ∀ w, timers_owned w → upload_exclusive w → no_overlap evs w →
       timers_owned (run evs w) ∧ upload_exclusive (run evs w).
Proof.
  induction evs as [|ev evs IH]; intros w Hown Hex Hno; [done|].
  destruct Hno as [Hclick Hno].
  destruct (single_cycle_step ev w Hown Hex Hclick) as [H1 H2].
  unfold run in *. simpl. by apply IH.
Qed.

Lemma fresh_requests_step ev w : fresh_requests w → fresh_requests (step ev w).
Proof.
  intros Hfresh. unfold step. destruct (enabled ev w); [|done].
  assert (∀ rid i, (next_request w ≤ i)%nat →
                   delete rid (pending w) !! i = None) as Hdel.
  { intros rid i Hi. apply lookup_delete_None. right. by apply Hfresh. }
  intros i. autorewrite with world. revert i.
  destruct ev; simpl.
  - destruct files as [[|f l]|]; callbacks; autorewrite with world; auto.
  - unfold handleUpload. repeat case_match; autorewrite with world; auto.
    intros i Hi. rewrite lookup_insert_ne by lia. apply Hfresh. lia.
  - destruct (pending w !! rid) as [[]|] eqn:E; auto.
    destruct r as [[uploadUrl key]|err]; callbacks; autorewrite with world; auto.
    intros i Hi. rewrite lookup_insert_ne by lia. apply Hdel. lia.
  - destruct (pending w !! rid) as [[]|] eqn:E; auto.
    callbacks. autorewrite with world. auto.
  - destruct (pending w !! rid) as [[]|] eqn:E; auto.
    destruct r as [[]|err]; callbacks; simpl; autorewrite with world; auto.
    simpl. autorewrite with world.
    intros i Hi. rewrite !lookup_insert_ne by lia. apply Hdel. lia.
  - destruct (pending w !! rid) as [[]|] eqn:E; auto.
    destruct r as [url|err]; callbacks; repeat case_match;
      autorewrite with world; auto.
  - destruct (pending w !! rid) as [[]|] eqn:E; auto.
    destruct r as [url|err]; callbacks; autorewrite with world; auto.
  - callbacks. destruct (timers w !! t) as [tm|] eqn:E; auto.
    autorewrite with world. simpl.
    intros i Hi. rewrite lookup_insert_ne by lia. apply Hfresh. lia.
  - callbacks. destruct (pollIntervalRef w); simpl; auto.
Qed.

Lemma fresh_requests_run evs w : fresh_requests w → fresh_requests (run evs w).
Proof.
  revert w. induction evs as [|ev evs IH]; intros w Hfresh; [done|].
  unfold run in *. simpl. apply IH. by apply fresh_requests_step.
Qed.

Lemma fresh_requests_reachable evs : fresh_requests (run evs init).
Proof. apply fresh_requests_run. intros rid _. apply lookup_empty. Qed.

Lemma single_cycle_reachable evs :
  no_overlap evs init →
  timers_owned (run evs init) ∧ upload_exclusive (run evs init).
Proof.
  apply single_cycle_run.
  - by apply timers_owned_empty.
  - apply exclusive_idle. intros rid p Hp. simpl in Hp.
    by apply lookup_empty_Some in Hp.
Qed.

Lemma stopPolling_clears_held w t :
  pollIntervalRef w = Some t → timers (stopPolling w) !! t = None.
Proof. intros H. rewrite stopPolling_timers, H. apply lookup_delete_eq. Qed.

(** ** The claims *)

(** C10. A change event that carries no file (the file list is absent or
    empty) leaves the whole component as it was: selected file, progress,
    error message, processed-image URL, status message, the ref and the
    active interval, both for the handler alone and for the handler followed
    by the render and its effect. *)
Theorem handleFileChange_without_file (files : option (list File)) (w : World) :
  files = None ∨ files = Some [] →
  handleFileChange files w = w ∧ step (EvFileChange files) w = w.
Proof.
  intros [-> | ->]; (split; [done|]);
    unfold step; destruct (enabled _ w); try done; simpl;
    unfold resultEffect; by rewrite bool_decide_eq_true_2.
Qed.

(** C4. When [handleUpload] runs with no selected file, or with the API
    gateway URL missing or left at its placeholder, or with the destination
    bucket URL missing or containing its placeholder, the only thing it does
    is to set the error message of the first check that fails: no request is
    issued, nothing starts waiting, and progress, interval, ref and processed
    URL (indeed every other field) stay as they were. *)
Theorem handleUpload_rejects_unready (w : World) :
  mounted w = true →
  selectedFile (state w) = None
  ∨ api_gateway_unconfigured = true
  ∨ destination_bucket_unconfigured = true →
  let message :=
    match selectedFile (state w) with
    | None => "Please select a file first."
    | Some _ =>
        if api_gateway_unconfigured
        then "Frontend is not configured with API Gateway URL."
        else "Frontend is not configured with Destination Bucket URL."
    end in
  handleUpload w = with_state (setErrorMessage (Some message) (state w)) w
  ∧ log (handleUpload w) = log w
  ∧ pending (handleUpload w) = pending w
  ∧ timers (handleUpload w) = timers w
  ∧ pollIntervalRef (handleUpload w) = pollIntervalRef w
  ∧ uploadProgress (state (handleUpload w)) = uploadProgress (state w)
  ∧ processedImageUrl (state (handleUpload w)) = processedImageUrl (state w).
Proof.
  intros Hm Hbad. simpl.
  assert (handleUpload w =
          with_state (setErrorMessage (Some
            match selectedFile (state w) with
            | None => "Please select a file first."
            | Some _ =>
                if api_gateway_unconfigured
                then "Frontend is not configured with API Gateway URL."
                else "Frontend is not configured with Destination Bucket URL."
            end) (state w)) w) as Heq.
  { unfold handleUpload, setState. rewrite Hm.
    destruct (selectedFile (state w)) as [f|]; [|done].
    destruct (api_gateway_unconfigured); [done|].
    destruct (destination_bucket_unconfigured);
      [done|].
    destruct Hbad as [? | [? | ?]]; discriminate. }
  split; [exact Heq|]. by rewrite Heq.
Qed.

(** X18. File selection under the component invariant.  On a mounted
    component whose active interval, if any, is the one held in
    [pollIntervalRef]:
    selecting a file replaces the selected file, clears the error message and
    the processed-image URL, puts the progress back to 0, empties the status
    text, clears the ref and cancels the interval, and touches neither the
    network log nor the waiting continuations.  Hence along any sequence of
    selections at most one interval is active at any point, and no request is
    issued. *)
Theorem selectFile_resets_and_cancels
    (w : World) (f : File) (others : list File)
    (sel : list (option (list File))) :
  mounted w = true → timers_owned w →
  let w' := handleFileChange (Some (f :: others)) w in
  selectedFile (state w') = Some f
  ∧ errorMessage (state w') = None
  ∧ processedImageUrl (state w') = None
  ∧ uploadProgress (state w') = Num 0
  ∧ statusMessage (state w') = EmptyString
  ∧ pollIntervalRef w' = None
  ∧ timers w' = ∅
  ∧ log w' = log w
  ∧ pending w' = pending w
  ∧ (size (timers (select_files sel w)) ≤ 1)%nat
  ∧ log (select_files sel w) = log w.
Proof.
  intros Hm Hown w'. subst w'. callbacks.
  split_and!; try (by state_of Hm).
  - rewrite <- (stopPolling_owned w Hown). by autorewrite with world.
  - apply timers_owned_size. by apply select_files_owned.
  - by apply select_files_owned.
Qed.




(** C8, as the code has it.  For a progress event that reports a positive
    total and no more bytes sent than that total (byte counts below 2^46, up
    to which the double-precision quotient of the source rounds like the
    exact one), the progress becomes the integer nearest to
    100 * loaded / total (a tie goes up), which lies between 0 and 100.  For
    an event without a total the code divides by 1 and the progress is
    100 * loaded (a product below 2^53, which a double holds exactly), with
    no upper limit of 100.  An upload that passes the checks of
    [handleUpload] starts with the progress at 0. *)
Theorem progress_is_rounded_percentage
    (w : World) (rid : nat) (f : File) (key : string) (loaded total : Z)
    (sent : Z) (w0 : World) (f0 : File) :
  mounted w = true → pending w !! rid = Some (AwaitPut f key) →
  (0 ≤ loaded ≤ total)%Z → (0 < total)%Z → (total < EXACT_BYTES)%Z →
  (0 ≤ sent)%Z → (sent * 100 < EXACT_PRODUCT)%Z →
  mounted w0 = true → selectedFile (state w0) = Some f0 →
  api_gateway_unconfigured = false →
  destination_bucket_unconfigured = false →
  (∃ p, uploadProgress (state (step (EvUploadProgress rid loaded (Some total)) w))
          = Num p
        ∧ (0 ≤ p ≤ 100)%Z
        ∧ (2 * p * total ≤ 200 * loaded + total < 2 * (p + 1) * total)%Z)
  ∧ uploadProgress (state (step (EvUploadProgress rid sent None) w))
      = Num (sent * 100)
  ∧ uploadProgress (state (handleUpload w0)) = Num 0.
Proof.
  intros Hm Hp Hl Ht Hbound Hsent Hprod Hm0 Hf0 Hapi Hdest. split_and!.
  - unfold step. simpl. rewrite Hp, resultEffect_progress.
    callbacks. state_of Hm. unfold percentCompleted.
    destruct (round_div_nearest (loaded * 100) total Ht) as (p & -> & Hp1).
    exists p. split; [done|]. split; nia.
  - unfold step. simpl. rewrite Hp, resultEffect_progress.
    callbacks. state_of Hm. unfold percentCompleted.
    destruct (round_div_nearest (sent * 100) 1 ltac:(lia)) as (p & -> & Hp1).
    f_equal. lia.
  - unfold handleUpload. rewrite Hf0, Hapi, Hdest.
    by state_of Hm0.
Qed.

(** C9, as the code has it.  From a component with no upload run suspended
    and no stray interval, after one press of the upload button and any events
    but another press: at every point at most one request of the upload phase
    (the upload-URL POST or the PUT) is in flight, and while it is no interval
    is active, so no status poll is issued before the PUT has resolved.  (The
    status polls themselves are issued on every tick, whether or not earlier
    ones were answered.) *)
Theorem upload_phase_is_sequential (w : World) (evs : list Event) :
  upload_idle w → timers_owned w →
  forallb (fun ev => negb (is_click ev)) evs = true →
  upload_exclusive (run (EvUploadClick :: evs) w).
Proof.
  intros Hidle Hown Hevs.
  change (upload_exclusive (run evs (step EvUploadClick w))).
  apply upload_exclusive_run; [done|]. by apply upload_exclusive_click.
Qed.

(** X19. How polling begins.  When the PUT has gone through (in a state
    where the request ids not yet handed out await nothing, as in every
    reachable one), the attempt counter
    of the run goes from 0 to 1 for the one call of [pollForProcessedImage]
    made at once (the only poll request issued at that point; the other GET
    issued there is the one [handleUpload] then awaits), the interval is
    registered with a delay of 3000 ms and stored in the ref, and each firing
    of the interval adds one to the counter and issues exactly one poll
    request with the new attempt number.  The bound on attempts is 15: a
    failed answer to attempt 15 stops the interval, so that when every poll is
    answered before the next firing no attempt beyond 15 is ever issued. *)
Theorem polling_begins_and_repeats
    (w : World) (rid : nat) (f : File) (key : string)
    (answers : list (string + JsError)) :
  pending w !! rid = Some (AwaitPut f key) → fresh_requests w →
  let w' := step (EvPutResponse rid (inl tt)) w in
  let t := next_timer w in
  log w' = log w ++ [ReqPoll (getUrlEndpoint key) key 1;
                     ReqGetUrl follow_up_endpoint]
  ∧ pending w' !! next_request w = Some (AwaitPoll key 1)
  ∧ pollIntervalRef w' = Some t
  ∧ timers w' =
      <[t := {| timer_key := key; timer_attempt := 1;
                timer_delay := 3000 |}]> (timers w)
  ∧ (∀ v tm, timers v !! t = Some tm →
       log (step (EvTick t) v) =
         log v ++ [ReqPoll (getUrlEndpoint (timer_key tm)) (timer_key tm)
                     (timer_attempt tm + 1)]
       ∧ timers (step (EvTick t) v) =
           <[t := {| timer_key := timer_key tm;
                     timer_attempt := (timer_attempt tm + 1)%Z;
                     timer_delay := timer_delay tm |}]> (timers v))
  ∧ MAX_POLL_ATTEMPTS = 15%Z
  ∧ ∃ later,
      poll_attempts (log (answered_polling t (next_request w) answers w')) =
        poll_attempts (log w) ++ 1%Z :: later
      ∧ Forall (fun a => (a ≤ 15)%Z) later.
Proof.
  intros Hp Hfresh w' t.
  assert (w' = resultEffect w (uploadCompleted key (settle rid w))) as Hw'.
  { subst w'. unfold step. simpl. by rewrite Hp. }
  assert (log w' = log w ++ [ReqPoll (getUrlEndpoint key) key 1;
                             ReqGetUrl follow_up_endpoint]) as Hl.
  { rewrite Hw'. callbacks. autorewrite with world. simpl.
    autorewrite with world. by rewrite <- app_assoc. }
  assert (pending w' !! next_request w = Some (AwaitPoll key 1)) as Hpoll.
  { rewrite Hw'. callbacks. autorewrite with world. simpl.
    autorewrite with world.
    rewrite lookup_insert_ne by lia. by rewrite lookup_insert_eq. }
  assert (pollIntervalRef w' = Some t) as Href.
  { rewrite Hw'. callbacks. autorewrite with world. simpl.
    by autorewrite with world. }
  assert (timers w' = <[t := {| timer_key := key; timer_attempt := 1;
                                timer_delay := 3000 |}]> (timers w)) as Ht.
  { rewrite Hw'. callbacks. autorewrite with world. simpl.
    by autorewrite with world. }
  split_and!; try done.
  - intros v tm Hv. destruct (tick_active t tm v Hv) as (H1 & H2 & _). done.
  - destruct (answered_polling_bound t key 3000 answers w' (next_request w) 1)
      as (new & Hnew & Hall); try done.
    + by rewrite Ht, lookup_insert_eq.
    + intros i Hi. rewrite Hw' in Hi |- *. revert Hi. callbacks.
      autorewrite with world. simpl. autorewrite with world. intros Hi.
      rewrite !lookup_insert_ne by lia.
      apply lookup_delete_None. right. apply Hfresh. lia.
    + exists new. split; [|done].
      rewrite Hnew, Hl, poll_attempts_app. simpl. by rewrite <- app_assoc.
Qed.

(** * Further properties of the component *)

(** ** No result is shown while uploading *)

Lemma dispatch_uploading ev w :
  isUploading (state (dispatch ev w)) = true →
  isUploading (state w) = true
  ∨ (truthy_opt (processedImageUrl (state (dispatch ev w))) = false
     ∧ truthy_opt (errorMessage (state (dispatch ev w))) = false).
Proof.
  destruct (mounted w) eqn:Hm; destruct ev; simpl;
    try (destruct files as [[|f l]|]);
    try (destruct (pending w !! rid) as [[]|]);
    try (destruct r as [[]|]);
    try (destruct (timers w !! t));
    callbacks; repeat case_match; state_of Hm; simpl;
    intros Hraised; first [by left | by right | discriminate].
Qed.

Lemma dispatch_frozen ev w :
  mounted (dispatch ev w) = false → state (dispatch ev w) = state w.
Proof.
  destruct (mounted w) eqn:Hm; destruct ev; simpl;
    try (destruct files as [[|f l]|]);
    try (destruct (pending w !! rid) as [[]|]);
    try (destruct r as [[]|]);
    try (destruct (timers w !! t));
    callbacks; repeat case_match; autorewrite with world; simpl;
    rewrite ?Hm; try discriminate; intros _; try done; by state_of Hm.
Qed.

Lemma quiet_while_uploading_step ev w :
  quiet_while_uploading w → quiet_while_uploading (step ev w).
Proof.
  intros Hq. unfold step. destruct (enabled ev w); [|done].
  pose proof (dispatch_uploading ev w) as Hup.
  pose proof (dispatch_frozen ev w) as Hfrozen.
  set (a := dispatch ev w) in *. unfold resultEffect.
  case_bool_decide as Hdeps.
  - destruct Hdeps as [Hu He]. intros H.
    destruct (Hup H) as [Hw | ?]; [|done].
    destruct (Hq Hw) as [H1 H2]. by rewrite <- Hu, <- He.
  - destruct (truthy_opt (processedImageUrl (state a))
              || truthy_opt (errorMessage (state a))) eqn:Htruthy.
    + unfold setState. destruct (mounted a) eqn:Hma; [by intros H|].
      rewrite Hfrozen in Hdeps by done. by destruct Hdeps.
    + apply orb_false_elim in Htruthy. by intros _.
Qed.

Lemma quiet_while_uploading_run evs w :
  quiet_while_uploading w → quiet_while_uploading (run evs w).
Proof.
  revert w. induction evs as [|ev evs IH]; intros w Hq; [done|].
  unfold run in *. simpl. apply IH. by apply quiet_while_uploading_step.
Qed.

(** X1. In every state in which the component awaits its next event (the
    callback has returned, its render is committed and the effect on
    [[processedImageUrl, errorMessage]] has run), it shows neither a download
    link nor an error line while it says it is uploading: when either is on
    the page the button reads "Upload Image" and the file input is enabled.
    (The frame committed before the effect has run is not such a state, see
    [error_frame_before_effect].) *)
Theorem result_or_error_ends_uploading (evs : list Event) :
  quiet_while_uploading (run evs init)
  ∧ let v := render (state (run evs init)) in
    (is_Some (error_paragraph v) ∨ is_Some (download_href v)) →
    button_text v = "Upload Image" ∧ input_disabled v = false.
Proof.
  assert (quiet_while_uploading (run evs init)) as Hq
    by (by apply quiet_while_uploading_run).
  split; [done|]. simpl. intros Hshown.
  destruct (isUploading (state (run evs init))) eqn:Hup; [|done].
  destruct (Hq Hup) as [Hu He]. exfalso.
  destruct Hshown as [[x Hx] | [x Hx]].
  - destruct (errorMessage (state (run evs init))) as [m|]; [|done].
    simpl in He. by rewrite He in Hx.
  - destruct (processedImageUrl (state (run evs init))) as [u|]; [|done].
    simpl in Hu. by rewrite Hu in Hx.
Qed.

(** ** The answers to a poll *)

Lemma resultEffect_same_deps b a :
  processedImageUrl (state b) = processedImageUrl (state a) →
  errorMessage (state b) = errorMessage (state a) →
  resultEffect b a = a.
Proof.
  intros H1 H2. unfold resultEffect. by rewrite bool_decide_eq_true_2.
Qed.

(** A step that ends with something to show leaves [isUploading] false. *)
Lemma shown_lowers_uploading ev w :
  quiet_while_uploading w →
  truthy_opt (processedImageUrl (state (step ev w))) = true
  ∨ truthy_opt (errorMessage (state (step ev w))) = true →
  isUploading (state (step ev w)) = false.
Proof.
  intros Hq Hshown.
  pose proof (quiet_while_uploading_step ev w Hq) as Hq'.
  destruct (isUploading (state (step ev w))) eqn:Hup; [|done].
  destruct (Hq' Hup) as [Hu He]. destruct Hshown; congruence.
Qed.

(** X2. A poll below the attempt bound that fails with a 404, or with
    anything that is not an axios error, is passed over in silence: the state
    shown to the user, the ref, the interval and the log stay as they are, and
    the next firing of the interval issues the next attempt. *)
Theorem poll_not_found_is_retried
    (w : World) (rid : nat) (key : string) (attempt : Z) (error : JsError)
    (t : nat) (tm : Timer) :
  pending w !! rid = Some (AwaitPoll key attempt) →
  (attempt < MAX_POLL_ATTEMPTS)%Z →
  passed_over error = true →
  timers w !! t = Some tm →
  let w' := step (EvPollResponse rid (inr error)) w in
  state w' = state w
  ∧ pollIntervalRef w' = pollIntervalRef w
  ∧ timers w' = timers w
  ∧ log w' = log w
  ∧ pending w' = delete rid (pending w)
  ∧ log (step (EvTick t) w') =
      log w ++ [ReqPoll (getUrlEndpoint (timer_key tm)) (timer_key tm)
                  (timer_attempt tm + 1)].
Proof.
  intros Hp Hlt Hpass Ht w'.
  assert (w' = settle rid w) as Hw'.
  { subst w'. unfold step. simpl. rewrite Hp. unfold pollRejected.
    destruct (MAX_POLL_ATTEMPTS <=? attempt)%Z eqn:E; [lia|].
    destruct error as [status dm msg| |]; simpl in Hpass; rewrite ?Hpass;
      simpl; by apply resultEffect_same_deps. }
  rewrite Hw'. split_and!; try done.
  destruct (tick_active t tm (settle rid w) Ht) as (Hl & _). exact Hl.
Qed.

(** X3. On a mounted component a failed poll whose attempt number has reached
    the bound ends the polling with the time-out message, whatever the
    failure was (a 404, a server error with its own message, a thrown value):
    status emptied, [isUploading] false, the ref and the interval it held
    cleared, no request issued by the handler.  When that interval was the
    only active one and no upload run is suspended, nothing is requested
    afterwards until upload is pressed again. *)
Theorem poll_failure_at_bound_times_out
    (w : World) (rid : nat) (key : string) (attempt : Z) (error : JsError)
    (evs : list Event) :
  mounted w = true → quiet_while_uploading w →
  pending w !! rid = Some (AwaitPoll key attempt) →
  (MAX_POLL_ATTEMPTS ≤ attempt)%Z →
  let w' := step (EvPollResponse rid (inr error)) w in
  errorMessage (state w') =
    Some "Processing timed out or failed. Please try again."
  ∧ statusMessage (state w') = EmptyString
  ∧ isUploading (state w') = false
  ∧ pollIntervalRef w' = None
  ∧ (∀ t, pollIntervalRef w = Some t → timers w' !! t = None)
  ∧ log w' = log w
  ∧ (timers_owned w → upload_idle w →
     forallb (fun ev => negb (is_click ev)) evs = true →
     timers w' = ∅ ∧ log (run evs w') = log w).
Proof.
  intros Hm Hq Hp Hge w'.
  assert (w' = resultEffect w (pollRejected attempt error (settle rid w)))
    as Hw'.
  { subst w'. unfold step. simpl. by rewrite Hp. }
  assert ((MAX_POLL_ATTEMPTS <=? attempt)%Z = true) as Hb by lia.
  assert (errorMessage (state w') =
          Some "Processing timed out or failed. Please try again.") as He.
  { rewrite Hw', resultEffect_errorMessage. unfold pollRejected. rewrite Hb.
    by state_of Hm. }
  assert (timers w' = timers (stopPolling w)) as Hts.
  { rewrite Hw'. unfold pollRejected. rewrite Hb. by autorewrite with world. }
  assert (log w' = log w) as Hl.
  { rewrite Hw'. unfold pollRejected. rewrite Hb. by autorewrite with world. }
  assert (pending w' = delete rid (pending w)) as Hpd.
  { rewrite Hw'. unfold pollRejected. rewrite Hb. by autorewrite with world. }
  split_and!; try done.
  - rewrite Hw', resultEffect_statusMessage. unfold pollRejected. rewrite Hb.
    by state_of Hm.
  - apply shown_lowers_uploading; [done|]. right. fold w'. by rewrite He.
  - rewrite Hw'. unfold pollRejected. rewrite Hb. by autorewrite with world.
  - intros t Href. rewrite Hts. by apply stopPolling_clears_held.
  - intros Hown Hidle Hevs.
    assert (timers w' = ∅) as Ht
      by (by rewrite Hts, (stopPolling_owned w Hown)).
    assert (upload_idle w') as Hidle'
      by (eapply upload_idle_delete; [exact Hidle | exact Hpd]).
    split; [done|].
    destruct (quiet_run evs w' Hevs Ht Hidle') as (_ & _ & ->). done.
Qed.

(** X4. On a mounted component a poll that succeeds stores the processed URL,
    sets the status to "Processing complete.", lowers [isUploading] (for a
    non-empty URL), clears the ref and the interval it held and issues no
    request; an error message that was on display stays on display.  When
    that interval was the only active one and no upload run is suspended,
    nothing is requested afterwards until upload is pressed again. *)
Theorem poll_success_ends_polling
    (w : World) (rid : nat) (key : string) (attempt : Z) (url : string)
    (evs : list Event) :
  mounted w = true → quiet_while_uploading w →
  pending w !! rid = Some (AwaitPoll key attempt) →
  let w' := step (EvPollResponse rid (inl url)) w in
  processedImageUrl (state w') = Some url
  ∧ statusMessage (state w') = "Processing complete."
  ∧ errorMessage (state w') = errorMessage (state w)
  ∧ (truthy url = true → isUploading (state w') = false)
  ∧ pollIntervalRef w' = None
  ∧ (∀ t, pollIntervalRef w = Some t → timers w' !! t = None)
  ∧ log w' = log w
  ∧ (timers_owned w → upload_idle w →
     forallb (fun ev => negb (is_click ev)) evs = true →
     timers w' = ∅ ∧ log (run evs w') = log w).
Proof.
  intros Hm Hq Hp w'.
  assert (w' = resultEffect w (pollResolved url (settle rid w))) as Hw'.
  { subst w'. unfold step. simpl. by rewrite Hp. }
  assert (processedImageUrl (state w') = Some url) as Hu.
  { rewrite Hw', resultEffect_processedImageUrl. callbacks. by state_of Hm. }
  assert (timers w' = timers (stopPolling w)) as Hts.
  { rewrite Hw'. callbacks. by autorewrite with world. }
  assert (log w' = log w) as Hl.
  { rewrite Hw'. callbacks. by autorewrite with world. }
  assert (pending w' = delete rid (pending w)) as Hpd.
  { rewrite Hw'. callbacks. by autorewrite with world. }
  split_and!; try done.
  - rewrite Hw', resultEffect_statusMessage. callbacks. by state_of Hm.
  - rewrite Hw', resultEffect_errorMessage. callbacks. by state_of Hm.
  - intros Htruthy. apply shown_lowers_uploading; [done|]. left. fold w'.
    by rewrite Hu.
  - rewrite Hw'. callbacks. by autorewrite with world.
  - intros t Href. rewrite Hts. by apply stopPolling_clears_held.
  - intros Hown Hidle Hevs.
    assert (timers w' = ∅) as Ht
      by (by rewrite Hts, (stopPolling_owned w Hown)).
    assert (upload_idle w') as Hidle'
      by (eapply upload_idle_delete; [exact Hidle | exact Hpd]).
    split; [done|].
    destruct (quiet_run evs w' Hevs Ht Hidle') as (_ & _ & ->). done.
Qed.

(** X5. The GET that [handleUpload] awaits after starting the interval never
    touches the polling: whatever its answer, ref, interval and log stay as
    they are.  A successful answer is shown as the result; a failure is shown
    as an error (a 404 always as the fixed "not found yet" text), and either
    lowers [isUploading] when there is something to show, although the
    interval goes on. *)
Theorem follow_up_get_leaves_polling_alone
    (w : World) (rid : nat) (key : string) (r : string + JsError) :
  mounted w = true → quiet_while_uploading w →
  pending w !! rid = Some (AwaitGetUrl key) →
  let w' := step (EvGetUrlResponse rid r) w in
  timers w' = timers w
  ∧ pollIntervalRef w' = pollIntervalRef w
  ∧ log w' = log w
  ∧ pending w' = delete rid (pending w)
  ∧ match r with
    | inl url =>
        processedImageUrl (state w') = Some url
        ∧ statusMessage (state w') = "Processing complete."
        ∧ (truthy url = true → isUploading (state w') = false)
    | inr error =>
        errorMessage (state w') = Some (get_url_failure_message error)
        ∧ statusMessage (state w') = EmptyString
        ∧ (truthy (get_url_failure_message error) = true →
           isUploading (state w') = false)
    end
  ∧ ∀ dataMessage message,
      get_url_failure_message (AxiosError (Some 404%Z) dataMessage message)
      = "Processed image not found yet. Try refreshing shortly.".
Proof.
  intros Hm Hq Hp w'.
  assert (w' = resultEffect w
                 match r with
                 | inl url => getUrlResolved url (settle rid w)
                 | inr error => getUrlRejected error (settle rid w)
                 end) as Hw'.
  { subst w'. unfold step. simpl. by rewrite Hp. }
  split_and!; try done;
    try (rewrite Hw'; destruct r; callbacks; by autorewrite with world).
  destruct r as [url|error].
  - assert (processedImageUrl (state w') = Some url) as Hu.
    { rewrite Hw', resultEffect_processedImageUrl. callbacks. by state_of Hm. }
    split_and!; try done.
    + rewrite Hw', resultEffect_statusMessage. callbacks. by state_of Hm.
    + intros Htruthy. apply shown_lowers_uploading; [done|]. left. fold w'.
      by rewrite Hu.
  - assert (errorMessage (state w') = Some (get_url_failure_message error))
      as He.
    { rewrite Hw', resultEffect_errorMessage. callbacks. by state_of Hm. }
    split_and!; try done.
    + rewrite Hw', resultEffect_statusMessage. callbacks. by state_of Hm.
    + intros Htruthy. apply shown_lowers_uploading; [done|]. right. fold w'.
      by rewrite He.
Qed.

(** ** What a run of [handleUpload] holds on to *)

Lemma resultEffect_nothing_shown b a :
  truthy_opt (processedImageUrl (state a)) = false →
  truthy_opt (errorMessage (state a)) = false →
  resultEffect b a = a.
Proof.
  intros H1 H2. unfold resultEffect. rewrite H1, H2. by case_bool_decide.
Qed.

Lemma pending_below_next w rid p :
  fresh_requests w → pending w !! rid = Some p → (rid < next_request w)%nat.
Proof.
  intros Hfresh Hp. destruct (decide (rid < next_request w)%nat); [done|].
  rewrite Hfresh in Hp by lia. done.
Qed.

(** A continuation waits until its own answer arrives. *)
Lemma pending_persists ev w rid p :
  fresh_requests w → pending w !! rid = Some p →
  answered ev ≠ Some rid →
  pending (step ev w) !! rid = Some p.
Proof.
  intros Hfresh Hp Hne.
  pose proof (pending_below_next w rid p Hfresh Hp) as Hlt.
  unfold step. destruct (enabled ev w); [|done]. autorewrite with world.
  destruct ev; simpl in *;
    try (assert (rid0 ≠ rid) as Hrid by congruence);
    try (destruct files as [[|f l]|]);
    try (destruct (pending w !! rid0) as [[]|] eqn:E);
    try (destruct r as [[]|]);
    try (destruct (timers w !! t));
    callbacks; repeat case_match; simpl; autorewrite with world; simpl;
    autorewrite with world;
    rewrite ?lookup_insert_ne by lia; rewrite ?lookup_delete_ne by done;
    done.
Qed.

Lemma pending_persists_run evs :
  ∀ w rid p,
    fresh_requests w → pending w !! rid = Some p →
    Forall (fun ev => answered ev ≠ Some rid) evs →
    pending (run evs w) !! rid = Some p.
Proof.
  induction evs as [|ev evs IH]; intros w rid p Hfresh Hp Hall; [done|].
  apply Forall_cons in Hall as [Hev Hall]. unfold run in *. simpl.
  apply IH; [by apply fresh_requests_step | by apply pending_persists | done].
Qed.

(** X6. Pressing upload on a configured component with a file selected
    raises [isUploading], clears result, error and progress, and issues one
    request: the POST for an upload URL, with the file's name and type.  The
    run keeps the file it was started with: whatever happens before the POST
    is answered (even another file being selected), the PUT that follows
    sends that file, with its type as the content type, to the URL
    received. *)
Theorem upload_sends_file_chosen_at_press
    (w : World) (f : File) (evs : list Event) (uploadUrl key : string) :
  enabled EvUploadClick w = true → selectedFile (state w) = Some f →
  api_gateway_unconfigured = false →
  destination_bucket_unconfigured = false →
  fresh_requests w →
  Forall (fun ev => answered ev ≠ Some (next_request w)) evs →
  let rid := next_request w in
  let w1 := step EvUploadClick w in
  let w2 := run evs w1 in
  log w1 = log w ++ [ReqGenerateUploadUrl
                       (api_gateway_text +:+ "/generate-upload-url")
                       (name f) (type f)]
  ∧ isUploading (state w1) = true
  ∧ errorMessage (state w1) = None
  ∧ processedImageUrl (state w1) = None
  ∧ uploadProgress (state w1) = Num 0
  ∧ statusMessage (state w1) = "Getting upload URL..."
  ∧ pollIntervalRef w1 = None
  ∧ pending w2 !! rid = Some (AwaitPost f)
  ∧ log (step (EvPostResponse rid (inl (uploadUrl, key))) w2) =
      log w2 ++ [ReqPut uploadUrl f (type f)].
Proof.
  intros Hen Hf Hapi Hdest Hfresh Hevs rid w1 w2.
  assert (mounted w = true) as Hm.
  { simpl in Hen. by destruct (mounted w). }
  assert (w1 = handleUpload w) as Hw1.
  { subst w1. unfold step. rewrite Hen. simpl.
    apply resultEffect_nothing_shown;
      unfold handleUpload; rewrite Hf, Hapi, Hdest; by state_of Hm. }
  assert (pending w1 !! rid = Some (AwaitPost f)) as Hp1.
  { rewrite Hw1. unfold handleUpload. rewrite Hf, Hapi, Hdest.
    autorewrite with world. apply lookup_insert_eq. }
  assert (pending w2 !! rid = Some (AwaitPost f)) as Hp2.
  { apply pending_persists_run; [by apply fresh_requests_step | done | done]. }
  split_and!; try done;
    try (rewrite Hw1; unfold handleUpload; rewrite Hf, Hapi, Hdest;
         by state_of Hm);
    try (rewrite Hw1; unfold handleUpload; rewrite Hf, Hapi, Hdest;
         by autorewrite with world).
  unfold step. simpl. rewrite Hp2. callbacks. by autorewrite with world.
Qed.

(** What the resumption after a successful PUT does to the run time. *)
Lemma polling_start w rid f key :
  pending w !! rid = Some (AwaitPut f key) →
  let w' := step (EvPutResponse rid (inl tt)) w in
  log w' = log w ++ [ReqPoll (getUrlEndpoint key) key 1;
                     ReqGetUrl follow_up_endpoint]
  ∧ pollIntervalRef w' = Some (next_timer w)
  ∧ timers w' =
      <[next_timer w := {| timer_key := key; timer_attempt := 1;
                           timer_delay := POLL_INTERVAL_MS |}]> (timers w)
  ∧ mounted w' = mounted w.
Proof.
  intros Hp w'. subst w'. unfold step. simpl. rewrite Hp.
  callbacks. autorewrite with world. simpl. autorewrite with world.
  by rewrite <- app_assoc.
Qed.

(** X7. Unmounting while the PUT is in flight does not end the run of
    [handleUpload]: when the PUT goes through afterwards the run still issues
    the first poll and starts the interval, in a component that is gone and
    whose state no longer changes, and the interval goes on issuing polls. *)
Theorem unmount_does_not_stop_pending_transfer
    (w : World) (rid : nat) (f : File) (key : string) :
  mounted w = true → pending w !! rid = Some (AwaitPut f key) →
  let w1 := step EvUnmount w in
  let w2 := step (EvPutResponse rid (inl tt)) w1 in
  mounted w2 = false
  ∧ state w2 = state w
  ∧ timers w2 !! next_timer w =
      Some {| timer_key := key; timer_attempt := 1; timer_delay := 3000 |}
  ∧ log w2 = log w ++ [ReqPoll (getUrlEndpoint key) key 1;
                       ReqGetUrl follow_up_endpoint]
  ∧ log (step (EvTick (next_timer w)) w2) =
      log w2 ++ [ReqPoll (getUrlEndpoint key) key 2].
Proof.
  intros Hm Hp w1 w2.
  assert (w1 = unmount w) as Hw1.
  { subst w1. unfold step. simpl. rewrite Hm.
    apply resultEffect_same_deps; unfold unmount;
      by destruct (pollIntervalRef w). }
  assert (pending w1 !! rid = Some (AwaitPut f key)
          ∧ next_timer w1 = next_timer w ∧ log w1 = log w
          ∧ mounted w1 = false ∧ state w1 = state w) as (Hp1 & Hn1 & Hl1 & Hm1 & Hs1).
  { rewrite Hw1. unfold unmount. by destruct (pollIntervalRef w). }
  destruct (polling_start w1 rid f key Hp1) as (Hl & Href & Ht & Hmw).
  fold w2 in Hl, Href, Ht, Hmw. rewrite Hn1 in Href, Ht. rewrite Hl1 in Hl.
  assert (timers w2 !! next_timer w =
          Some {| timer_key := key; timer_attempt := 1; timer_delay := 3000 |})
    as Hactive by (by rewrite Ht, lookup_insert_eq).
  split_and!; try done.
  - by rewrite Hmw.
  - destruct (unmounted_step (EvPutResponse rid (inl tt)) w1 Hm1) as [Hs _].
    fold w2 in Hs. by rewrite Hs.
  - destruct (tick_active _ _ w2 Hactive) as (Hl2 & _). exact Hl2.
Qed.

(** X8. As long as upload is never pressed while an earlier run is still
    waiting for its POST or PUT, the component keeps its interval in hand:
    in every state reached the only active interval is the one held in
    [pollIntervalRef] (so there is at most one), and while a POST or PUT is
    in flight it is the only one of its phase and no interval is active. *)
Theorem one_interval_without_overlapping_uploads (evs : list Event) :
  no_overlap evs init →
  timers_owned (run evs init)
  ∧ (size (timers (run evs init)) ≤ 1)%nat
  ∧ upload_exclusive (run evs init).
Proof.
  intros Hno.
  assert (timers_owned (run evs init) ∧ upload_exclusive (run evs init))
    as [Hown Hex].
  { apply single_cycle_run; [by apply timers_owned_empty | | done].
    apply exclusive_idle. intros rid p Hp. simpl in Hp.
    by apply lookup_empty_Some in Hp. }
  split_and!; [done | by apply timers_owned_size | done].
Qed.

(** ** The attempt numbers of one interval *)

Lemma upload_idle_insert n k w w' :
  upload_idle w → is_upload k = false →
  pending w' = <[n := k]> (pending w) → upload_idle w'.
Proof.
  intros Hidle Hk Hp r p. rewrite Hp. intros H.
  apply lookup_insert_Some in H as [[_ <-] | [_ H]]; eauto.
Qed.

(** With no upload run suspended, an event other than a press of the button
    either leaves the log alone and at most clears an interval, or it is the
    firing of an active interval, which issues that interval's next poll. *)
Lemma idle_step_effect ev w :
  is_click ev = false → upload_idle w →
  upload_idle (step ev w)
  ∧ ((log (step ev w) = log w
      ∧ (timers (step ev w) = timers w
         ∨ ∃ h, timers (step ev w) = delete h (timers w)))
     ∨ ∃ t tm,
         timers w !! t = Some tm
         ∧ log (step ev w) =
             log w ++ [ReqPoll (getUrlEndpoint (timer_key tm)) (timer_key tm)
                         (timer_attempt tm + 1)]
         ∧ timers (step ev w) = <[t := next_attempt tm]> (timers w)).
Proof.
  intros Hev Hidle. unfold step. destruct (enabled ev w); [|by auto].
  assert (upload_idle (dispatch ev w)
          ∧ ((log (dispatch ev w) = log w
              ∧ (timers (dispatch ev w) = timers w
                 ∨ ∃ h, timers (dispatch ev w) = delete h (timers w)))
             ∨ ∃ t tm,
                 timers w !! t = Some tm
                 ∧ log (dispatch ev w) =
                     log w ++ [ReqPoll (getUrlEndpoint (timer_key tm))
                                 (timer_key tm) (timer_attempt tm + 1)]
                 ∧ timers (dispatch ev w) = <[t := next_attempt tm]> (timers w)))
    as [H1 H2].
  2:{ split; [eapply upload_idle_same; [exact H1 | by autorewrite with world]|].
      by autorewrite with world. }
  assert (∀ rid, upload_idle (settle rid w)) as Hs
    by (intros rid; eapply upload_idle_delete; [done | by autorewrite with world]).
  destruct ev; try discriminate; simpl.
  - destruct files as [[|f l]|]; try (by auto). callbacks. split.
    + eapply upload_idle_same; [done | by autorewrite with world].
    + left. autorewrite with world. split; [done|]. case_match; eauto.
  - destruct (pending w !! rid) as [[]|] eqn:E; try (by auto).
    apply Hidle in E. discriminate.
  - destruct (pending w !! rid) as [[]|] eqn:E; try (by auto).
    apply Hidle in E. discriminate.
  - destruct (pending w !! rid) as [[]|] eqn:E; try (by auto).
    apply Hidle in E. discriminate.
  - destruct (pending w !! rid) as [[]|] eqn:E; try (by auto).
    destruct r as [url|err]; callbacks; repeat case_match;
      (split; [eapply upload_idle_same; [apply (Hs rid) | by autorewrite with world]|]);
      left; autorewrite with world; (split; [done|]); try case_match; eauto.
  - destruct (pending w !! rid) as [[]|] eqn:E; try (by auto).
    destruct r as [url|err]; callbacks;
      (split; [eapply upload_idle_same; [apply (Hs rid) | by autorewrite with world]|]);
      left; autorewrite with world; auto.
  - callbacks. destruct (timers w !! t) as [tm|] eqn:E; [|by auto]. split.
    + eapply upload_idle_insert; [exact Hidle | | by autorewrite with world].
      done.
    + right. exists t, tm. by autorewrite with world.
  - callbacks. split.
    + eapply upload_idle_same; [done|]. by destruct (pollIntervalRef w).
    + left. destruct (pollIntervalRef w); simpl; eauto.
Qed.

Lemma consecutive_attempts evs :
  ∀ w t tm,
    timers w = {[t := tm]} → upload_idle w →
    forallb (fun ev => negb (is_click ev)) evs = true →
    ∃ n : nat,
      poll_attempts (log (run evs w)) =
        poll_attempts (log w) ++ seqZ (timer_attempt tm + 1) (Z.of_nat n)
      ∧ (timers (run evs w) = ∅
         ∨ timers (run evs w) =
             {[t := {| timer_key := timer_key tm;
                       timer_attempt := (timer_attempt tm + Z.of_nat n)%Z;
                       timer_delay := timer_delay tm |}]}).
Proof.
  induction evs as [|ev evs IH]; intros w t tm Ht Hidle Hevs.
  { exists 0%nat. simpl. rewrite app_nil_r, Z.add_0_r. split; [done|].
    right. rewrite Ht. by destruct tm. }
  simpl in Hevs. apply andb_prop in Hevs as [Hev Hevs].
  apply negb_true_iff in Hev.
  destruct (idle_step_effect ev w Hev Hidle) as [Hidle1 Hcase].
  change (run (ev :: evs) w) with (run evs (step ev w)).
  assert (timers (step ev w) = ∅ →
          log (step ev w) = log w →
          ∃ n : nat,
            poll_attempts (log (run evs (step ev w))) =
              poll_attempts (log w) ++ seqZ (timer_attempt tm + 1) (Z.of_nat n)
            ∧ (timers (run evs (step ev w)) = ∅
               ∨ timers (run evs (step ev w)) =
                   {[t := {| timer_key := timer_key tm;
                             timer_attempt := (timer_attempt tm + Z.of_nat n)%Z;
                             timer_delay := timer_delay tm |}]})) as Hstopped.
  { intros Hnone Hl.
    destruct (quiet_run evs _ Hevs Hnone Hidle1) as (Hq1 & _ & Hq3).
    exists 0%nat. simpl. rewrite app_nil_r, Hq3, Hl. auto. }
  destruct Hcase as [[Hl Htimers] | (t0 & tm0 & Ht0 & Hl & Htimers)].
  - assert (timers (step ev w) = ∅ ∨ timers (step ev w) = {[t := tm]}) as [Hn|Hsame].
    { destruct Htimers as [-> | [h ->]]; [by right|]. rewrite Ht.
      destruct (decide (h = t)) as [->|Hne].
      - left. apply delete_singleton_eq.
      - right. by apply delete_singleton_ne. }
    + by apply Hstopped.
    + destruct (IH _ t tm Hsame Hidle1 Hevs) as (n & Hn & Hfinal).
      exists n. by rewrite Hn, Hl.
  - rewrite Ht in Ht0. apply lookup_singleton_Some in Ht0 as [<- <-].
    rewrite Ht, insert_singleton_eq in Htimers.
    destruct (IH _ t (next_attempt tm) Htimers Hidle1 Hevs) as (n & Hn & Hfinal).
    exists (S n). simpl in *. split.
    + rewrite Hn, Hl, poll_attempts_app. simpl. rewrite <- app_assoc. simpl.
      f_equal. rewrite (seqZ_cons _ (Z.of_nat (S n))) by lia.
      f_equal. f_equal; lia.
    + destruct Hfinal as [? | ->]; [by left|]. right.
      do 2 f_equal. lia.
Qed.

(** X9. From one running interval and no upload in flight, whatever ticks and
    answers follow, in whatever order and however late, the attempts issued
    are numbered consecutively from the interval's counter on: none is skipped
    and none repeated; in the end the interval is either cleared or its
    counter is the number of the last attempt issued. *)
Theorem attempts_are_consecutive
    (w : World) (t : nat) (tm : Timer) (evs : list Event) :
  timers w = {[t := tm]} → upload_idle w →
  forallb (fun ev => negb (is_click ev)) evs = true →
  ∃ n : nat,
    poll_attempts (log (run evs w)) =
      poll_attempts (log w) ++ seqZ (timer_attempt tm + 1) (Z.of_nat n)
    ∧ (timers (run evs w) = ∅
       ∨ timers (run evs w) =
           {[t := {| timer_key := timer_key tm;
                     timer_attempt := (timer_attempt tm + Z.of_nat n)%Z;
                     timer_delay := timer_delay tm |}]}).
Proof. intros. by apply consecutive_attempts. Qed.

(** X17. Every firing of the interval puts the attempt number on display,
    as "Processing... (Attempt n/15)", and touches nothing else of the state:
    a result or an error that is already shown stays, under a status that
    reads "Processing" again. *)
Theorem tick_shows_attempt_number (w : World) (t : nat) (tm : Timer) :
  mounted w = true → timers w !! t = Some tm →
  let w' := step (EvTick t) w in
  let text := "Processing... (Attempt " +:+ string_of_Z (timer_attempt tm + 1)
              +:+ "/15)" in
  statusMessage (state w') = text
  ∧ status_paragraph (render (state w')) = Some ("Status: " +:+ text)
  ∧ processedImageUrl (state w') = processedImageUrl (state w)
  ∧ errorMessage (state w') = errorMessage (state w)
  ∧ isUploading (state w') = isUploading (state w)
  ∧ selectedFile (state w') = selectedFile (state w)
  ∧ uploadProgress (state w') = uploadProgress (state w).
Proof.
  intros Hm Ht w' text.
  assert (w' = pollForProcessedImage (timer_key tm) (timer_attempt tm + 1)
                 (with_timers (<[t := next_attempt tm]> (timers w)) w)) as Hw'.
  { subst w'. unfold step. simpl. unfold intervalFired. rewrite Ht.
    apply resultEffect_same_deps; callbacks; by state_of Hm. }
  assert (statusMessage (state w') = text) as Hs.
  { rewrite Hw'. callbacks. by state_of Hm. }
  clearbody w'.
  split_and!; try done; try (rewrite Hw'; callbacks; by state_of Hm).
Qed.

(** ** The percentage *)

Lemma percentCompleted_value loaded total :
  (0 < total)%Z →
  percentCompleted loaded (Some total)
  = Num ((2 * (loaded * 100) + total) / (2 * total))%Z.
Proof.
  intros Ht. unfold percentCompleted, round_div.
  destruct (total =? 0)%Z eqn:E; [apply Z.eqb_eq in E; lia | done].
Qed.

(** X10. For a fixed positive total the percentage never goes down when the
    number of bytes sent goes up. *)
Theorem percentCompleted_monotone (loaded loaded' total : Z) :
  (0 < total)%Z → (loaded ≤ loaded')%Z →
  ∃ p p', percentCompleted loaded (Some total) = Num p
          ∧ percentCompleted loaded' (Some total) = Num p'
          ∧ (p ≤ p')%Z.
Proof.
  intros Ht Hle. rewrite !percentCompleted_value by done.
  eexists _, _. split_and!; try done.
  apply Z.div_le_mono; lia.
Qed.

(** X11. For byte counts below 2^46 and a positive total: nothing sent is 0,
    everything sent is 100, and 100 is shown exactly from 99.5 percent on.
    With a total of zero the value is not a number (NaN when nothing was
    sent, Infinity otherwise); with no total, and 100 * loaded below 2^53, it
    is a hundred times the bytes sent. *)
Theorem percentCompleted_ends_and_degenerate (loaded total : Z) :
  (0 < total)%Z → (0 ≤ loaded ≤ total)%Z → (total < EXACT_BYTES)%Z →
  (loaded * 100 < EXACT_PRODUCT)%Z →
  percentCompleted 0 (Some total) = Num 0
  ∧ percentCompleted total (Some total) = Num 100
  ∧ (percentCompleted loaded (Some total) = Num 100
     ↔ (199 * total ≤ 200 * loaded)%Z)
  ∧ percentCompleted 0 (Some 0%Z) = NaN
  ∧ percentCompleted total (Some 0%Z) = PosInfinity
  ∧ percentCompleted loaded None = Num (loaded * 100).
Proof.
  intros Ht Hl Hbound Hprod. rewrite !percentCompleted_value by done. split_and!.
  - f_equal. apply Z.div_small. lia.
  - f_equal. symmetry. apply Z.div_unique with (r := total); lia.
  - pose proof (Z.mul_div_le (2 * (loaded * 100) + total) (2 * total)
                  ltac:(lia)).
    pose proof (Z.mul_succ_div_gt (2 * (loaded * 100) + total) (2 * total)
                  ltac:(lia)).
    split.
    + intros [= Heq]. lia.
    + intros Hge. f_equal. symmetry.
      apply Z.div_unique with (r := (200 * loaded - 199 * total)%Z); lia.
  - reflexivity.
  - unfold percentCompleted, round_div. simpl.
    destruct (0 <? total * 100)%Z eqn:E; [done|]. apply Z.ltb_ge in E. lia.
  - unfold percentCompleted, round_div.
    change (1 =? 0)%Z with false. cbv iota. f_equal. symmetry.
    apply Z.div_unique with (r := 1%Z); lia.
Qed.

(** ** The configuration checks *)

Lemma prefix_app (sub s : string) :
  String.prefix sub s = true ↔ ∃ post, s = sub +:+ post.
Proof.
  revert s. induction sub as [|c sub IH]; intros s.
  - split; [intros _; by exists s | by destruct s].
  - destruct s as [|c' s]; simpl.
    + split; [done | by intros [post [=]]].
    + destruct (Ascii.ascii_dec c c') as [<-|Hne].
      * rewrite IH. split.
        -- intros [post ->]. by exists post.
        -- intros [post [= ->]]. by exists post.
      * split; [done|]. intros [post [= <- _]]. done.
Qed.

Lemma includes_spec (s sub : string) :
  includes s sub = true ↔ ∃ pre post, s = pre +:+ sub +:+ post.
Proof.
  induction s as [|c s IH]; cbn [includes].
  - rewrite orb_false_r, prefix_app. split.
    + intros [post ->]. by exists EmptyString, post.
    + intros (pre & post & H). destruct pre as [|c pre]; [by exists post|].
      discriminate.
  - rewrite orb_true_iff, IH, prefix_app. split.
    + intros [[post ->] | (pre & post & ->)].
      * by exists EmptyString, post.
      * by exists (String c pre), post.
    + intros (pre & post & H). destruct pre as [|c' pre].
      * left. by exists post.
      * right. injection H as <- ->. by exists pre, post.
Qed.

(** X12. What the checks of [handleUpload] count as not configured: an API
    gateway URL that is undefined, empty, or exactly the placeholder; a
    destination bucket URL that is undefined, empty, or has the placeholder
    bucket name anywhere inside it. *)
Theorem unconfigured_exactly :
  (api_gateway_unconfigured = true
   ↔ API_GATEWAY_URL = None ∨ API_GATEWAY_URL = Some EmptyString
     ∨ API_GATEWAY_URL = Some "YOUR_API_GATEWAY_INVOKE_URL")
  ∧ (destination_bucket_unconfigured = true
     ↔ DESTINATION_BUCKET_BASE_URL = None
       ∨ DESTINATION_BUCKET_BASE_URL = Some EmptyString
       ∨ ∃ pre post,
           DESTINATION_BUCKET_BASE_URL
           = Some (pre +:+ "your-destination-bucket-name" +:+ post)).
Proof.
  unfold api_gateway_unconfigured, destination_bucket_unconfigured. split.
  - destruct API_GATEWAY_URL as [s|]; simpl; [|by intuition].
    unfold truthy. rewrite negb_involutive, orb_true_iff, !String.eqb_eq.
    split.
    + intros [-> | ->]; auto.
    + intros [? | [[= ->] | [= ->]]]; auto. done.
  - destruct DESTINATION_BUCKET_BASE_URL as [s|]; simpl; [|by intuition].
    unfold truthy. rewrite negb_involutive, orb_true_iff, String.eqb_eq,
      includes_spec.
    split.
    + intros [-> | (pre & post & ->)]; eauto.
    + intros [? | [[= ->] | (pre & post & [= ->])]]; eauto. done.
Qed.

(** * The first revision *)

Ltac first_callbacks :=
  unfold FirstRevision.handleFileChange, FirstRevision.handleUpload,
    FirstRevision.uploadUrlReceived, FirstRevision.uploadCompleted,
    FirstRevision.uploadFailed, FirstRevision.imageFailed, onUploadProgress.

Lemma first_revision_step_requests ev w :
  timers (FirstRevision.step ev w) = timers w
  ∧ pollIntervalRef (FirstRevision.step ev w) = pollIntervalRef w
  ∧ ∃ new, log (FirstRevision.step ev w) = log w ++ new
           ∧ forallb is_upload_request new = true.
Proof.
  unfold FirstRevision.step. destruct (FirstRevision.enabled ev w).
  2:{ split_and!; try done. exists []. by rewrite app_nil_r. }
  destruct ev;
    try (destruct files as [[|f l]|]);
    try (destruct (pending w !! rid) as [[]|]);
    try (destruct r as [[]|]);
    first_callbacks; repeat case_match; simpl; autorewrite with world;
    (split_and!; try done);
    first [ by (exists []; rewrite app_nil_r) | by eexists [_] ].
Qed.

(** X13. The first revision never polls: whatever the events, it creates or
    clears no interval, leaves the ref alone, and the only requests it issues
    are upload-URL POSTs and PUTs. *)
Theorem first_revision_never_polls
    (evs : list FirstRevision.Event) (w : World) :
  timers (FirstRevision.run evs w) = timers w
  ∧ pollIntervalRef (FirstRevision.run evs w) = pollIntervalRef w
  ∧ ∃ new, log (FirstRevision.run evs w) = log w ++ new
           ∧ forallb is_upload_request new = true.
Proof.
  revert w. induction evs as [|ev evs IH]; intros w.
  { split_and!; try done. exists []. by rewrite app_nil_r. }
  destruct (first_revision_step_requests ev w) as (Ht & Hr & new1 & Hl & Hn1).
  destruct (IH (FirstRevision.step ev w)) as (Ht' & Hr' & new2 & Hl' & Hn2).
  unfold FirstRevision.run in *. simpl.
  split_and!; [congruence | congruence |].
  exists (new1 ++ new2). split.
  - by rewrite Hl', Hl, <- app_assoc.
  - rewrite forallb_app. by rewrite Hn1, Hn2.
Qed.

(** X14. In the first revision a PUT that goes through ends the run with a
    result on display at once: the URL shown is built from the current time
    alone (the same for every key, file and configuration, and never empty),
    the status reads "Processing complete (assumed).", [isUploading] is
    false, and nothing further is requested. *)
Theorem first_revision_result_ignores_key
    (w : World) (rid : nat) (f : File) (key : string) (now : Z) :
  mounted w = true → pending w !! rid = Some (AwaitPut f key) →
  let w' := FirstRevision.step (FirstRevision.EvPutResponse rid (inl now)) w in
  processedImageUrl (state w') = Some (FirstRevision.expected_url now)
  ∧ truthy (FirstRevision.expected_url now) = true
  ∧ statusMessage (state w') = "Processing complete (assumed)."
  ∧ isUploading (state w') = false
  ∧ errorMessage (state w') = errorMessage (state w)
  ∧ log w' = log w
  ∧ pending w' = delete rid (pending w).
Proof.
  intros Hm Hp w'. subst w'. unfold FirstRevision.step. simpl. rewrite Hp.
  first_callbacks. split_and!; try (by state_of Hm);
    by autorewrite with world.
Qed.

(** X15. In the first revision a POST or PUT that fails ends the run: the
    failure message is shown, the status is emptied, [isUploading] is false
    and nothing further is requested. *)
Theorem first_revision_failure_ends_upload
    (w : World) (rid : nat) (ev : FirstRevision.Event) (error : JsError) :
  mounted w = true →
  (ev = FirstRevision.EvPostResponse rid (inr error)
     ∧ ∃ f, pending w !! rid = Some (AwaitPost f))
  ∨ (ev = FirstRevision.EvPutResponse rid (inr error)
     ∧ ∃ f key, pending w !! rid = Some (AwaitPut f key)) →
  let w' := FirstRevision.step ev w in
  errorMessage (state w') = Some (upload_failure_message error)
  ∧ statusMessage (state w') = EmptyString
  ∧ isUploading (state w') = false
  ∧ processedImageUrl (state w') = processedImageUrl (state w)
  ∧ log w' = log w
  ∧ pending w' = delete rid (pending w).
Proof.
  intros Hm Hev w'.
  assert (w' = FirstRevision.uploadFailed error (settle rid w)) as ->.
  { subst w'. unfold FirstRevision.step.
    destruct Hev as [[-> [f Hp]] | [-> (f & key & Hp)]]; simpl; by rewrite Hp. }
  first_callbacks. split_and!; try (by state_of Hm);
    by autorewrite with world.
Qed.

(** X16. In the first revision, when the displayed image fails to load, the
    result is withdrawn and an error shown in its place; with the image gone
    the handler cannot fire again, and nothing is requested. *)
Theorem first_revision_image_error_withdraws_result (w : World) :
  mounted w = true → truthy_opt (processedImageUrl (state w)) = true →
  let w' := FirstRevision.step FirstRevision.EvImageError w in
  processedImageUrl (state w') = None
  ∧ download_href (render (state w')) = None
  ∧ errorMessage (state w') =
      Some "Processed image not found or still processing. Try refreshing?"
  ∧ isUploading (state w') = isUploading (state w)
  ∧ log w' = log w
  ∧ FirstRevision.step FirstRevision.EvImageError w' = w'.
Proof.
  intros Hm Hu w'.
  assert (w' = FirstRevision.imageFailed w) as Hw'.
  { subst w'. unfold FirstRevision.step. simpl. by rewrite Hm, Hu. }
  clearbody w'.
  assert (processedImageUrl (state w') = None) as Hnone.
  { rewrite Hw'. first_callbacks. by state_of Hm. }
  split_and!; try done;
    try (rewrite Hw'; first_callbacks; by state_of Hm).
  unfold FirstRevision.step. simpl. rewrite Hnone. simpl.
  by rewrite andb_false_r.
Qed.

End Properties.

(** * The component on concrete runs *)

(** What counts as not configured: an undefined or empty value, the API
    gateway placeholder itself, a bucket URL that contains its placeholder. *)
Example unconfigured_values :
  (∀ bucket enc,
     api_gateway_unconfigured
       (env := {| API_GATEWAY_URL := None;
                  DESTINATION_BUCKET_BASE_URL := bucket;
                  encodeURIComponent := enc |}) = true
     ∧ api_gateway_unconfigured
         (env := {| API_GATEWAY_URL := Some EmptyString;
                    DESTINATION_BUCKET_BASE_URL := bucket;
                    encodeURIComponent := enc |}) = true
     ∧ api_gateway_unconfigured
         (env := {| API_GATEWAY_URL := Some "YOUR_API_GATEWAY_INVOKE_URL";
                    DESTINATION_BUCKET_BASE_URL := bucket;
                    encodeURIComponent := enc |}) = true)
  ∧ (∀ api enc,
       destination_bucket_unconfigured
         (env := {| API_GATEWAY_URL := api;
                    DESTINATION_BUCKET_BASE_URL := None;
                    encodeURIComponent := enc |}) = true
       ∧ destination_bucket_unconfigured
           (env := {| API_GATEWAY_URL := api;
                      DESTINATION_BUCKET_BASE_URL :=
                        Some "https://your-destination-bucket-name.s3.amazonaws.com";
                      encodeURIComponent := enc |}) = true)
  ∧ api_gateway_unconfigured (env := sample_env) = false
  ∧ destination_bucket_unconfigured (env := sample_env) = false.
Proof. split_and!; try done; intros; split_and!; done. Qed.

(** The first poll is answered with a 404, the second, one interval later,
    with the processed URL: the URL is shown and the interval is gone. *)
Example ready_on_second_poll :
  let w := sample_run [EvPollResponse 2 (inr not_found); EvTick 1;
                       EvPollResponse 4 (inl "https://store/abc123?sig=1")]
                      polling_world in
  outcome w = (Some "https://store/abc123?sig=1", None, "Processing complete.")
  ∧ poll_attempts (log w) = [1; 2]%Z
  ∧ timers w = ∅ ∧ pollIntervalRef w = None.
Proof. vm_compute. done. Qed.

(** Fifteen 404 answers, each handled before the next tick: time-out after
    exactly fifteen poll requests. *)
Example timeout_after_fifteen_prompt_answers :
  let w := sample_run fifteenth_answer_in_time polling_world in
  errorMessage (state w) = Some "Processing timed out or failed. Please try again."
  ∧ poll_attempts (log w) = [1; 2; 3; 4; 5; 6; 7; 8; 9; 10; 11; 12; 13; 14; 15]%Z
  ∧ timers w = ∅ ∧ pollIntervalRef w = None.
Proof. vm_compute. done. Qed.

(** A 500 for attempt 3: the error is shown and later ticks ask nothing. *)
Example server_error_on_third_attempt :
  let w := sample_run (not_found_then_tick 2 ++ not_found_then_tick 4 ++
                       [EvPollResponse 5 (inr server_error); EvTick 1; EvTick 1])
                      polling_world in
  errorMessage (state w) =
    Some "Error retrieving processed image: Request failed with status code 500"
  ∧ poll_attempts (log w) = [1; 2; 3]%Z
  ∧ timers w = ∅.
Proof. vm_compute. done. Qed.

(** The invariant needs uploads that do not overlap: after
    [overlapping_uploads] two intervals are active and only the later one is
    in the ref, so [stopPolling] leaves the earlier one running. *)
Example overlapping_uploads_leave_a_stray_interval :
  let w := sample_run overlapping_uploads polling_world in
  ¬ no_overlap (env := sample_env) overlapping_uploads polling_world
  ∧ pollIntervalRef w = Some 3%nat
  ∧ timers w !! 2%nat =
      Some {| timer_key := "def456"; timer_attempt := 1; timer_delay := 3000 |}
  ∧ timers (stopPolling w) !! 2%nat =
      Some {| timer_key := "def456"; timer_attempt := 1; timer_delay := 3000 |}.
Proof.
  split.
  - intros (_ & _ & _ & [Hidle _]). specialize (Hidle eq_refl).
    apply (bool_decide_pack _) in Hidle. vm_compute in Hidle. exact Hidle.
  - vm_compute. done.
Qed.

(** C1, where the code departs from it.  Attempts 1 to 14 are answered with a
    404 in time, the 404 for attempt 15 arrives after the interval has fired
    again: by then the attempt counter is 16 and the status text reads
    attempt 16 of 15; once the fifteenth 404 is handled the time-out message
    is shown and the interval is cleared, but sixteen poll requests have been
    issued. *)
Theorem sixteenth_poll_when_answer_is_late :
  let before := sample_run (fourteen_not_found ++ [EvTick 1]) polling_world in
  let after := sample_step (EvPollResponse 17 (inr not_found)) before in
  timers before !! 1%nat =
    Some {| timer_key := "abc123"; timer_attempt := 16; timer_delay := 3000 |}
  ∧ statusMessage (state before) = "Processing... (Attempt 16/15)"
  ∧ after = sample_run fifteenth_answer_late polling_world
  ∧ poll_attempts (log after) =
      [1; 2; 3; 4; 5; 6; 7; 8; 9; 10; 11; 12; 13; 14; 15; 16]%Z
  ∧ errorMessage (state after) =
      Some "Processing timed out or failed. Please try again."
  ∧ timers after = ∅ ∧ pollIntervalRef after = None.
Proof. vm_compute. done. Qed.

(** C5, where the code departs from it.  Polling begins as it should (the
    first poll is attempt 1, the interval has a delay of 3000 ms and is in
    the ref), but the bound of 15 is not part of the schedule: when no poll
    is answered during the first 45 seconds the interval fires fifteen times,
    its counter reaches 16 and sixteen polls have been issued, the status
    reading attempt 16 of 15. *)
Theorem sixteen_attempts_when_no_answer_arrives :
  let w := sample_run fifteen_unanswered_ticks polling_world in
  pollIntervalRef polling_world = Some 1%nat
  ∧ timers polling_world !! 1%nat =
      Some {| timer_key := "abc123"; timer_attempt := 1; timer_delay := 3000 |}
  ∧ poll_attempts (log polling_world) = [1]%Z
  ∧ timers w !! 1%nat =
      Some {| timer_key := "abc123"; timer_attempt := 16; timer_delay := 3000 |}
  ∧ poll_attempts (log w) =
      [1; 2; 3; 4; 5; 6; 7; 8; 9; 10; 11; 12; 13; 14; 15; 16]%Z
  ∧ statusMessage (state w) = "Processing... (Attempt 16/15)"
  ∧ (MAX_POLL_ATTEMPTS < 16)%Z.
Proof. vm_compute. done. Qed.

(** C6, where the code departs from it.  In [stray_world] the file input is
    enabled and two intervals are active, the ref holding the later one.
    Selecting a file resets the fields and clears the ref and the interval it
    held, but the other interval stays active and goes on polling. *)
Theorem stray_interval_survives_file_selection :
  let w := sample_step (EvFileChange (Some [other_photo])) stray_world in
  enabled (EvFileChange (Some [other_photo])) stray_world = true
  ∧ size (timers stray_world) = 2%nat
  ∧ pollIntervalRef stray_world = Some 3%nat
  ∧ selectedFile (state w) = Some other_photo
  ∧ pollIntervalRef w = None
  ∧ timers w !! 3%nat = None
  ∧ timers w !! 2%nat =
      Some {| timer_key := "def456"; timer_attempt := 1; timer_delay := 3000 |}
  ∧ poll_attempts (log (sample_run [EvTick 2; EvTick 2] w)) =
      poll_attempts (log w) ++ [2; 3]%Z.
Proof. vm_compute. done. Qed.

(** The frame a callback commits before the effect has run can show an error
    under a button that still reads "Uploading": here the 404 of the GET
    awaited by [handleUpload], before the effect lowers [isUploading]. *)
Example error_frame_before_effect :
  let frame :=
    render (state (dispatch (env := sample_env)
                     (EvGetUrlResponse 3 (inr not_found)) polling_world)) in
  error_paragraph frame =
    Some "Error: Processed image not found yet. Try refreshing shortly."
  ∧ button_text frame = "Uploading (0%)"
  ∧ button_text
      (render (state (sample_step (EvGetUrlResponse 3 (inr not_found))
                        polling_world)))
    = "Upload Image".
Proof. vm_compute. done. Qed.



(** C8 fails as stated: a progress event without a total, after 500 bytes. *)
Lemma progress_without_total_exceeds_100 :
  uploadProgress (state (sample_step (EvUploadProgress 1 500 None) transfer_world))
    = Num 50000
  ∧ ¬ (∃ p, uploadProgress
              (state (sample_step (EvUploadProgress 1 500 None) transfer_world))
              = Num p
            ∧ (0 ≤ p ≤ 100)%Z).
Proof.
  assert (uploadProgress
            (state (sample_step (EvUploadProgress 1 500 None) transfer_world))
          = Num 50000) as H by (vm_compute; reflexivity).
  split; [exact H|]. rewrite H. intros (p & [= <-] & Hp). lia.
Qed.

(** C9 fails as stated: as soon as polling begins the first poll and the GET
    that [handleUpload] awaits are in flight together, and one interval
    later, with the first poll unanswered, two status polls are. *)
Lemma two_polls_in_flight :
  pending polling_world !! 2%nat = Some (AwaitPoll "abc123" 1)
  ∧ pending polling_world !! 3%nat = Some (AwaitGetUrl "abc123")
  ∧ pending (sample_step (EvTick 1) polling_world) !! 2%nat
    = Some (AwaitPoll "abc123" 1)
  ∧ pending (sample_step (EvTick 1) polling_world) !! 4%nat
    = Some (AwaitPoll "abc123" 2)
  ∧ ¬ at_most_one_poll (sample_step (EvTick 1) polling_world).
Proof.
  assert (pending (sample_step (EvTick 1) polling_world) !! 2%nat
          = Some (AwaitPoll "abc123" 1)) as H2 by (vm_compute; reflexivity).
  assert (pending (sample_step (EvTick 1) polling_world) !! 4%nat
          = Some (AwaitPoll "abc123" 2)) as H4 by (vm_compute; reflexivity).
  split; [by vm_compute | split; [by vm_compute |]].
  split; [exact H2 | split; [exact H4 |]].
  intros H. specialize (H _ _ _ _ H2 eq_refl H4 eq_refl). discriminate.
Qed.

(** ** The theorems at work on the sample runs *)

Lemma handleFileChange_without_file_witness :
  (@None (list File) = None ∨ @None (list File) = Some [])
  ∧ handleFileChange None polling_world = polling_world
  ∧ sample_step (EvFileChange None) polling_world = polling_world.
Proof.
  assert (h : @None (list File) = None ∨ @None (list File) = Some [])
    by (left; reflexivity).
  exact (conj h (handleFileChange_without_file (env := sample_env)
                   None polling_world h)).
Defined.

Lemma handleUpload_rejects_unready_witness :
  mounted init = true
  ∧ selectedFile (state init) = None
  ∧ handleUpload (env := sample_env) init =
      with_state (setErrorMessage (Some "Please select a file first.")
                    (state init)) init
  ∧ log (handleUpload (env := sample_env) init) = [].
Proof.
  assert (h1 : mounted init = true) by reflexivity.
  assert (h2 : selectedFile (state init) = None) by reflexivity.
  pose proof (handleUpload_rejects_unready (env := sample_env) init h1
                (or_introl h2)) as (H & Hlog & _).
  exact (conj h1 (conj h2 (conj H Hlog))).
Defined.

Lemma selectFile_resets_and_cancels_witness :
  mounted polling_world = true
  ∧ timers_owned polling_world
  ∧ selectedFile (state (handleFileChange (Some [other_photo]) polling_world))
      = Some other_photo
  ∧ timers (handleFileChange (Some [other_photo]) polling_world) = ∅
  ∧ (size (timers (select_files [None; Some [photo]] polling_world)) ≤ 1)%nat.
Proof.
  assert (h1 : mounted polling_world = true) by (vm_compute; reflexivity).
  assert (h2 : timers_owned polling_world) by compute_done.
  pose proof (selectFile_resets_and_cancels polling_world other_photo []
                [None; Some [photo]] h1 h2)
    as (H1 & _ & _ & _ & _ & _ & H7 & _ & _ & H10 & _).
  exact (conj h1 (conj h2 (conj H1 (conj H7 H10)))).
Defined.




Lemma progress_is_rounded_percentage_witness :
  mounted transfer_world = true
  ∧ pending transfer_world !! 1%nat = Some (AwaitPut photo "abc123")
  ∧ (0 ≤ 1 ≤ 3)%Z ∧ (0 < 3)%Z ∧ (3 < EXACT_BYTES)%Z
  ∧ (0 ≤ 5)%Z ∧ (5 * 100 < EXACT_PRODUCT)%Z
  ∧ mounted selected_world = true
  ∧ selectedFile (state selected_world) = Some photo
  ∧ api_gateway_unconfigured (env := sample_env) = false
  ∧ destination_bucket_unconfigured (env := sample_env) = false
  ∧ uploadProgress
      (state (sample_step (EvUploadProgress 1 5 None) transfer_world))
      = Num (5 * 100)
  ∧ uploadProgress (state (handleUpload (env := sample_env) selected_world))
      = Num 0.
Proof.
  assert (h1 : mounted transfer_world = true) by (vm_compute; reflexivity).
  assert (h2 : pending transfer_world !! 1%nat = Some (AwaitPut photo "abc123"))
    by (vm_compute; reflexivity).
  assert (h3 : (0 ≤ 1 ≤ 3)%Z) by lia.
  assert (h4 : (0 < 3)%Z) by lia.
  assert (hb : (3 < EXACT_BYTES)%Z) by (vm_compute; reflexivity).
  assert (hs : (0 ≤ 5)%Z) by lia.
  assert (hp : (5 * 100 < EXACT_PRODUCT)%Z) by (vm_compute; reflexivity).
  assert (h5 : mounted selected_world = true) by (vm_compute; reflexivity).
  assert (h6 : selectedFile (state selected_world) = Some photo)
    by (vm_compute; reflexivity).
  assert (h7 : api_gateway_unconfigured (env := sample_env) = false)
    by (vm_compute; reflexivity).
  assert (h8 : destination_bucket_unconfigured (env := sample_env) = false)
    by (vm_compute; reflexivity).
  pose proof (progress_is_rounded_percentage (env := sample_env) transfer_world
                1 photo "abc123" 1 3 5 selected_world photo
                h1 h2 h3 h4 hb hs hp h5 h6 h7 h8) as (_ & Hnone & H).
  exact (conj h1 (conj h2 (conj h3 (conj h4 (conj hb (conj hs (conj hp
           (conj h5 (conj h6 (conj h7 (conj h8 (conj Hnone H)))))))))))).
Defined.

Lemma upload_phase_is_sequential_witness :
  upload_idle selected_world
  ∧ timers_owned selected_world
  ∧ upload_exclusive
      (sample_run [EvUploadClick;
                   EvPostResponse 0 (inl ("https://store/x", "abc123"));
                   EvUploadProgress 1 1 (Some 3%Z)]
         selected_world).
Proof.
  assert (h1 : upload_idle selected_world) by compute_done.
  assert (h2 : timers_owned selected_world) by compute_done.
  exact (conj h1 (conj h2
           (upload_phase_is_sequential (env := sample_env) selected_world
              [EvPostResponse 0 (inl ("https://store/x", "abc123"));
               EvUploadProgress 1 1 (Some 3%Z)] h1 h2 eq_refl))).
Defined.

Lemma polling_begins_and_repeats_witness :
  pending transfer_world !! 1%nat = Some (AwaitPut photo "abc123")
  ∧ fresh_requests transfer_world
  ∧ pollIntervalRef (sample_step (EvPutResponse 1 (inl tt)) transfer_world)
      = Some (next_timer transfer_world)
  ∧ MAX_POLL_ATTEMPTS = 15%Z.
Proof.
  assert (h1 : pending transfer_world !! 1%nat = Some (AwaitPut photo "abc123"))
    by (vm_compute; reflexivity).
  assert (h2 : fresh_requests transfer_world) by compute_done.
  pose proof (polling_begins_and_repeats (env := sample_env) transfer_world 1
                photo "abc123" [inr not_found; inl "https://store/abc123?sig=1"]
                h1 h2)
    as (_ & _ & H3 & _ & _ & H6 & _).
  exact (conj h1 (conj h2 (conj H3 H6))).
Defined.

(** ** The further properties on the sample runs *)

Lemma poll_not_found_is_retried_witness :
  pending polling_world !! 2%nat = Some (AwaitPoll "abc123" 1)
  ∧ (1 < MAX_POLL_ATTEMPTS)%Z
  ∧ passed_over not_found = true
  ∧ timers polling_world !! 1%nat =
      Some {| timer_key := "abc123"; timer_attempt := 1; timer_delay := 3000 |}
  ∧ state (sample_step (EvPollResponse 2 (inr not_found)) polling_world)
      = state polling_world
  ∧ timers (sample_step (EvPollResponse 2 (inr not_found)) polling_world)
      = timers polling_world.
Proof.
  assert (h1 : pending polling_world !! 2%nat = Some (AwaitPoll "abc123" 1))
    by (vm_compute; reflexivity).
  assert (h2 : (1 < MAX_POLL_ATTEMPTS)%Z) by (vm_compute; reflexivity).
  assert (h3 : passed_over not_found = true) by reflexivity.
  assert (h4 : timers polling_world !! 1%nat =
               Some {| timer_key := "abc123"; timer_attempt := 1;
                       timer_delay := 3000 |}) by (vm_compute; reflexivity).
  pose proof (poll_not_found_is_retried (env := sample_env) polling_world 2
                "abc123" 1 not_found 1 _ h1 h2 h3 h4) as (H1 & _ & H3 & _).
  exact (conj h1 (conj h2 (conj h3 (conj h4 (conj H1 H3))))).
Defined.

Lemma poll_failure_at_bound_times_out_witness :
  mounted fifteenth_world = true
  ∧ quiet_while_uploading fifteenth_world
  ∧ pending fifteenth_world !! 17%nat = Some (AwaitPoll "abc123" 15)
  ∧ (MAX_POLL_ATTEMPTS ≤ 15)%Z
  ∧ timers_owned fifteenth_world
  ∧ upload_idle fifteenth_world
  ∧ errorMessage (state (sample_step (EvPollResponse 17 (inr server_error))
                           fifteenth_world))
      = Some "Processing timed out or failed. Please try again."
  ∧ timers (sample_step (EvPollResponse 17 (inr server_error)) fifteenth_world)
      = ∅
  ∧ log (sample_run [EvTick 1]
           (sample_step (EvPollResponse 17 (inr server_error)) fifteenth_world))
      = log fifteenth_world.
Proof.
  assert (h1 : mounted fifteenth_world = true) by (vm_compute; reflexivity).
  assert (h2 : timers_owned fifteenth_world) by compute_done.
  assert (h3 : upload_idle fifteenth_world) by compute_done.
  assert (h4 : quiet_while_uploading fifteenth_world) by compute_done.
  assert (h5 : pending fifteenth_world !! 17%nat = Some (AwaitPoll "abc123" 15))
    by (vm_compute; reflexivity).
  assert (h6 : (MAX_POLL_ATTEMPTS ≤ 15)%Z) by (vm_compute; discriminate).
  pose proof (poll_failure_at_bound_times_out (env := sample_env)
                fifteenth_world 17 "abc123" 15 server_error [EvTick 1]
                h1 h4 h5 h6) as (H1 & _ & _ & _ & _ & _ & H7).
  destruct (H7 h2 h3 eq_refl) as [Ht Hl].
  exact (conj h1 (conj h4 (conj h5 (conj h6 (conj h2 (conj h3
           (conj H1 (conj Ht Hl)))))))).
Defined.

Lemma poll_success_ends_polling_witness :
  mounted polling_world = true
  ∧ quiet_while_uploading polling_world
  ∧ pending polling_world !! 2%nat = Some (AwaitPoll "abc123" 1)
  ∧ timers_owned polling_world
  ∧ upload_idle polling_world
  ∧ processedImageUrl
      (state (sample_step (EvPollResponse 2 (inl "https://store/abc123?sig=1"))
                polling_world))
      = Some "https://store/abc123?sig=1"
  ∧ log (sample_run [EvTick 1; EvTick 1]
           (sample_step (EvPollResponse 2 (inl "https://store/abc123?sig=1"))
              polling_world))
      = log polling_world.
Proof.
  assert (h1 : mounted polling_world = true) by (vm_compute; reflexivity).
  assert (h2 : timers_owned polling_world) by compute_done.
  assert (h3 : upload_idle polling_world) by compute_done.
  assert (h4 : quiet_while_uploading polling_world) by compute_done.
  assert (h5 : pending polling_world !! 2%nat = Some (AwaitPoll "abc123" 1))
    by (vm_compute; reflexivity).
  pose proof (poll_success_ends_polling (env := sample_env) polling_world 2
                "abc123" 1 "https://store/abc123?sig=1" [EvTick 1; EvTick 1]
                h1 h4 h5) as (H1 & _ & _ & _ & _ & _ & _ & H8).
  destruct (H8 h2 h3 eq_refl) as [_ Hl].
  exact (conj h1 (conj h4 (conj h5 (conj h2 (conj h3 (conj H1 Hl)))))).
Defined.

Lemma follow_up_get_leaves_polling_alone_witness :
  mounted polling_world = true
  ∧ quiet_while_uploading polling_world
  ∧ pending polling_world !! 3%nat = Some (AwaitGetUrl "abc123")
  ∧ timers (sample_step (EvGetUrlResponse 3 (inr not_found)) polling_world)
      = timers polling_world
  ∧ log (sample_step (EvGetUrlResponse 3 (inr not_found)) polling_world)
      = log polling_world.
Proof.
  assert (h1 : mounted polling_world = true) by (vm_compute; reflexivity).
  assert (h2 : quiet_while_uploading polling_world) by compute_done.
  assert (h3 : pending polling_world !! 3%nat = Some (AwaitGetUrl "abc123"))
    by (vm_compute; reflexivity).
  pose proof (follow_up_get_leaves_polling_alone (env := sample_env)
                polling_world 3 "abc123" (inr not_found) h1 h2 h3)
    as (H1 & _ & H3 & _).
  exact (conj h1 (conj h2 (conj h3 (conj H1 H3)))).
Defined.

Lemma upload_sends_file_chosen_at_press_witness :
  enabled EvUploadClick selected_world = true
  ∧ selectedFile (state selected_world) = Some photo
  ∧ api_gateway_unconfigured (env := sample_env) = false
  ∧ destination_bucket_unconfigured (env := sample_env) = false
  ∧ fresh_requests selected_world
  ∧ Forall (fun ev => answered ev ≠ Some (next_request selected_world))
      [EvFileChange (Some [other_photo]); EvTick 1]
  ∧ log (sample_step (EvPostResponse (next_request selected_world)
                        (inl ("https://store/x", "abc123")))
           (sample_run [EvFileChange (Some [other_photo]); EvTick 1]
              (sample_step EvUploadClick selected_world)))
      = log (sample_run [EvFileChange (Some [other_photo]); EvTick 1]
               (sample_step EvUploadClick selected_world))
        ++ [ReqPut "https://store/x" photo (type photo)].
Proof.
  assert (h1 : enabled EvUploadClick selected_world = true)
    by (vm_compute; reflexivity).
  assert (h2 : selectedFile (state selected_world) = Some photo)
    by (vm_compute; reflexivity).
  assert (h3 : api_gateway_unconfigured (env := sample_env) = false)
    by (vm_compute; reflexivity).
  assert (h4 : destination_bucket_unconfigured (env := sample_env) = false)
    by (vm_compute; reflexivity).
  assert (h5 : fresh_requests selected_world) by compute_done.
  assert (h6 : Forall (fun ev => answered ev ≠ Some (next_request selected_world))
                 [EvFileChange (Some [other_photo]); EvTick 1])
    by (repeat constructor; discriminate).
  pose proof (upload_sends_file_chosen_at_press (env := sample_env)
                selected_world photo
                [EvFileChange (Some [other_photo]); EvTick 1]
                "https://store/x" "abc123" h1 h2 h3 h4 h5 h6)
    as (_ & _ & _ & _ & _ & _ & _ & _ & H9).
  exact (conj h1 (conj h2 (conj h3 (conj h4 (conj h5 (conj h6 H9)))))).
Defined.

Lemma unmount_does_not_stop_pending_transfer_witness :
  mounted transfer_world = true
  ∧ pending transfer_world !! 1%nat = Some (AwaitPut photo "abc123")
  ∧ mounted (sample_step (EvPutResponse 1 (inl tt))
               (sample_step EvUnmount transfer_world)) = false
  ∧ timers (sample_step (EvPutResponse 1 (inl tt))
              (sample_step EvUnmount transfer_world))
      !! next_timer transfer_world
    = Some {| timer_key := "abc123"; timer_attempt := 1; timer_delay := 3000 |}.
Proof.
  assert (h1 : mounted transfer_world = true) by (vm_compute; reflexivity).
  assert (h2 : pending transfer_world !! 1%nat = Some (AwaitPut photo "abc123"))
    by (vm_compute; reflexivity).
  pose proof (unmount_does_not_stop_pending_transfer (env := sample_env)
                transfer_world 1 photo "abc123" h1 h2) as (H1 & _ & H3 & _).
  exact (conj h1 (conj h2 (conj H1 H3))).
Defined.

Lemma one_interval_without_overlapping_uploads_witness :
  no_overlap (env := sample_env) (to_polling ++ [EvTick 1]) init
  ∧ timers_owned (sample_run (to_polling ++ [EvTick 1]) init)
  ∧ (size (timers (sample_run (to_polling ++ [EvTick 1]) init)) ≤ 1)%nat.
Proof.
  assert (h : no_overlap (env := sample_env) (to_polling ++ [EvTick 1]) init)
    by compute_done.
  pose proof (one_interval_without_overlapping_uploads (env := sample_env)
                (to_polling ++ [EvTick 1]) h) as (H1 & H2 & _).
  exact (conj h (conj H1 H2)).
Defined.

Lemma attempts_are_consecutive_witness :
  timers polling_world =
    {[1%nat := {| timer_key := "abc123"; timer_attempt := 1;
                  timer_delay := 3000 |}]}
  ∧ upload_idle polling_world
  ∧ ∃ n : nat,
      poll_attempts
        (log (sample_run [EvTick 1; EvPollResponse 2 (inr not_found); EvTick 1]
                polling_world))
      = poll_attempts (log polling_world) ++ seqZ (1 + 1) (Z.of_nat n).
Proof.
  assert (h1 : timers polling_world =
               {[1%nat := {| timer_key := "abc123"; timer_attempt := 1;
                             timer_delay := 3000 |}]})
    by (vm_compute; reflexivity).
  assert (h2 : upload_idle polling_world) by compute_done.
  destruct (attempts_are_consecutive (env := sample_env) polling_world 1 _
              [EvTick 1; EvPollResponse 2 (inr not_found); EvTick 1]
              h1 h2 eq_refl) as (n & Hn & _).
  exact (conj h1 (conj h2 (ex_intro _ n Hn))).
Defined.

Lemma percentCompleted_monotone_witness :
  (0 < 3)%Z ∧ (1 ≤ 2)%Z
  ∧ ∃ p p', percentCompleted 1 (Some 3%Z) = Num p
            ∧ percentCompleted 2 (Some 3%Z) = Num p' ∧ (p ≤ p')%Z.
Proof.
  assert (h1 : (0 < 3)%Z) by lia.
  assert (h2 : (1 ≤ 2)%Z) by lia.
  exact (conj h1 (conj h2 (percentCompleted_monotone 1 2 3 h1 h2))).
Defined.

Lemma percentCompleted_ends_and_degenerate_witness :
  (0 < 200)%Z ∧ (0 ≤ 199 ≤ 200)%Z ∧ (200 < EXACT_BYTES)%Z
  ∧ (199 * 100 < EXACT_PRODUCT)%Z
  ∧ percentCompleted 200 (Some 200%Z) = Num 100
  ∧ (percentCompleted 199 (Some 200%Z) = Num 100
     ↔ (199 * 200 ≤ 200 * 199)%Z).
Proof.
  assert (h1 : (0 < 200)%Z) by lia.
  assert (h2 : (0 ≤ 199 ≤ 200)%Z) by lia.
  assert (h3 : (200 < EXACT_BYTES)%Z) by (vm_compute; reflexivity).
  assert (h4 : (199 * 100 < EXACT_PRODUCT)%Z) by (vm_compute; reflexivity).
  pose proof (percentCompleted_ends_and_degenerate 199 200 h1 h2 h3 h4)
    as (_ & H2 & H3 & _).
  exact (conj h1 (conj h2 (conj h3 (conj h4 (conj H2 H3))))).
Defined.

Lemma first_revision_result_ignores_key_witness :
  mounted first_transfer_world = true
  ∧ pending first_transfer_world !! 1%nat = Some (AwaitPut photo "abc123")
  ∧ processedImageUrl (state first_result_world)
      = Some (FirstRevision.expected_url 1700000000000)
  ∧ isUploading (state first_result_world) = false.
Proof.
  assert (h1 : mounted first_transfer_world = true) by (vm_compute; reflexivity).
  assert (h2 : pending first_transfer_world !! 1%nat
               = Some (AwaitPut photo "abc123")) by (vm_compute; reflexivity).
  pose proof (first_revision_result_ignores_key (env := sample_env)
                first_transfer_world 1 photo "abc123" 1700000000000 h1 h2)
    as (H1 & _ & _ & H4 & _).
  exact (conj h1 (conj h2 (conj H1 H4))).
Defined.

Lemma first_revision_failure_ends_upload_witness :
  mounted first_transfer_world = true
  ∧ pending first_transfer_world !! 1%nat = Some (AwaitPut photo "abc123")
  ∧ errorMessage
      (state (FirstRevision.step (env := sample_env)
                (FirstRevision.EvPutResponse 1 (inr server_error))
                first_transfer_world))
      = Some (upload_failure_message server_error)
  ∧ isUploading
      (state (FirstRevision.step (env := sample_env)
                (FirstRevision.EvPutResponse 1 (inr server_error))
                first_transfer_world))
      = false.
Proof.
  assert (h1 : mounted first_transfer_world = true) by (vm_compute; reflexivity).
  assert (h2 : pending first_transfer_world !! 1%nat
               = Some (AwaitPut photo "abc123")) by (vm_compute; reflexivity).
  pose proof (first_revision_failure_ends_upload (env := sample_env)
                first_transfer_world 1
                (FirstRevision.EvPutResponse 1 (inr server_error)) server_error
                h1 (or_intror (conj eq_refl
                      (ex_intro _ photo (ex_intro _ "abc123" h2)))))
    as (H1 & _ & H3 & _).
  exact (conj h1 (conj h2 (conj H1 H3))).
Defined.

Lemma first_revision_image_error_withdraws_result_witness :
  mounted first_result_world = true
  ∧ truthy_opt (processedImageUrl (state first_result_world)) = true
  ∧ processedImageUrl
      (state (FirstRevision.step (env := sample_env)
                FirstRevision.EvImageError first_result_world))
      = None.
Proof.
  assert (h1 : mounted first_result_world = true) by (vm_compute; reflexivity).
  assert (h2 : truthy_opt (processedImageUrl (state first_result_world)) = true)
    by (vm_compute; reflexivity).
  pose proof (first_revision_image_error_withdraws_result (env := sample_env)
                first_result_world h1 h2) as (H1 & _).
  exact (conj h1 (conj h2 H1)).
Defined.

Lemma tick_shows_attempt_number_witness :
  mounted polling_world = true
  ∧ timers polling_world !! 1%nat =
      Some {| timer_key := "abc123"; timer_attempt := 1; timer_delay := 3000 |}
  ∧ statusMessage (state (sample_step (EvTick 1) polling_world))
      = "Processing... (Attempt 2/15)".
Proof.
  assert (h1 : mounted polling_world = true) by (vm_compute; reflexivity).
  assert (h2 : timers polling_world !! 1%nat =
               Some {| timer_key := "abc123"; timer_attempt := 1;
                       timer_delay := 3000 |}) by (vm_compute; reflexivity).
  pose proof (tick_shows_attempt_number (env := sample_env) polling_world 1 _
                h1 h2) as (H1 & _).
  exact (conj h1 (conj h2 H1)).
Defined.
